(** * DataJoint job reservation ([datajoint/jobs.py])

    A shallow embedding of [key_hash], [JobRelation.__init__],
    [JobRelation.reserve], [JobRelation.complete], [JobRelation.error] and
    [JobManager], together with the properties the natural-language
    specification states about them and further properties of the code. *)

From Stdlib Require Import ZArith List String Ascii Strings.Byte Bool Lia.
From Stdlib Require Import Sorting.Permutation Sorting.Sorted DecimalString.
From stdpp Require Import base option gmap strings sorting.
Import ListNotations.

(** ** [hashlib.md5]

    The MD5 message digest of RFC 1321 on 32-bit words carried in [Z];
    every addition is reduced modulo [2^32] explicitly. *)
Module MD5.
Local Open Scope Z_scope.

Definition mask32 : Z := 0xFFFFFFFF.
Definition w32 (x : Z) : Z := Z.land x mask32.
Definition add32 (x y : Z) : Z := w32 (x + y).
Definition not32 (x : Z) : Z := Z.lxor (w32 x) mask32.
Definition rotl32 (x c : Z) : Z :=
  w32 (Z.lor (Z.shiftl x c) (Z.shiftr x (32 - c))).

Definition F (x y z : Z) : Z := Z.lor (Z.land x y) (Z.land (not32 x) z).
Definition G (x y z : Z) : Z := Z.lor (Z.land x z) (Z.land y (not32 z)).
Definition H (x y z : Z) : Z := Z.lxor x (Z.lxor y z).
Definition I (x y z : Z) : Z := Z.lxor y (Z.lor x (not32 z)).

(** [T[i] = floor (2^32 * abs (sin (i + 1)))]. *)
Definition T : list Z :=
  [ 0xd76aa478; 0xe8c7b756; 0x242070db; 0xc1bdceee; 0xf57c0faf; 0x4787c62a; 0xa8304613; 0xfd469501;
    0x698098d8; 0x8b44f7af; 0xffff5bb1; 0x895cd7be; 0x6b901122; 0xfd987193; 0xa679438e; 0x49b40821;
    0xf61e2562; 0xc040b340; 0x265e5a51; 0xe9b6c7aa; 0xd62f105d; 0x02441453; 0xd8a1e681; 0xe7d3fbc8;
    0x21e1cde6; 0xc33707d6; 0xf4d50d87; 0x455a14ed; 0xa9e3e905; 0xfcefa3f8; 0x676f02d9; 0x8d2a4c8a;
    0xfffa3942; 0x8771f681; 0x6d9d6122; 0xfde5380c; 0xa4beea44; 0x4bdecfa9; 0xf6bb4b60; 0xbebfbc70;
    0x289b7ec6; 0xeaa127fa; 0xd4ef3085; 0x04881d05; 0xd9d4d039; 0xe6db99e5; 0x1fa27cf8; 0xc4ac5665;
    0xf4292244; 0x432aff97; 0xab9423a7; 0xfc93a039; 0x655b59c3; 0x8f0ccc92; 0xffeff47d; 0x85845dd1;
    0x6fa87e4f; 0xfe2ce6e0; 0xa3014314; 0x4e0811a1; 0xf7537e82; 0xbd3af235; 0x2ad7d2bb; 0xeb86d391 ].

(** Per-step left-rotation amounts. *)
Definition shifts : list Z :=
  [ 7; 12; 17; 22; 7; 12; 17; 22; 7; 12; 17; 22; 7; 12; 17; 22;
    5;  9; 14; 20; 5;  9; 14; 20; 5;  9; 14; 20; 5;  9; 14; 20;
    4; 11; 16; 23; 4; 11; 16; 23; 4; 11; 16; 23; 4; 11; 16; 23;
    6; 10; 15; 21; 6; 10; 15; 21; 6; 10; 15; 21; 6; 10; 15; 21 ].

Record state := State { sA : Z; sB : Z; sC : Z; sD : Z }.

Definition init : state :=
  State 0x67452301 0xefcdab89 0x98badcfe 0x10325476.

(** One of the 64 steps of the compression function on block [M]. *)
Definition step (M : list Z) (st : state) (i : nat) : state :=
  let '(State a b c d) := st in
  let iz := Z.of_nat i in
  let '(f, g) :=
    if iz <? 16 then (F b c d, iz)
    else if iz <? 32 then (G b c d, (5 * iz + 1) mod 16)
    else if iz <? 48 then (H b c d, (3 * iz + 5) mod 16)
    else (I b c d, (7 * iz) mod 16) in
  let f' := add32 (add32 (add32 f a) (nth i T 0)) (nth (Z.to_nat g) M 0) in
  State d (add32 b (rotl32 f' (nth i shifts 0))) b c.

Definition compress (st : state) (M : list Z) : state :=
  let '(State a b c d) := fold_left (step M) (seq 0 64) st in
  State (add32 (sA st) a) (add32 (sB st) b) (add32 (sC st) c) (add32 (sD st) d).

(** Little-endian encoding of [n] bytes of [x]. *)
Fixpoint le_bytes (n : nat) (x : Z) : list Z :=
  match n with
  | O => []
  | S n' => Z.land x 0xFF :: le_bytes n' (Z.shiftr x 8)
  end.

(** Padding: a [0x80] byte, zeros up to 56 modulo 64, then the bit length
    of the message on 64 bits. *)
Definition pad (msg : list Z) : list Z :=
  let len := Z.of_nat (length msg) in
  let zeros := Z.to_nat ((55 - len) mod 64) in
  msg ++ [0x80] ++ repeat 0 zeros ++ le_bytes 8 (Z.land (8 * len) 0xFFFFFFFFFFFFFFFF).

Fixpoint le_words (fuel : nat) (bs : list Z) : list Z :=
  match fuel, bs with
  | S fuel', b0 :: b1 :: b2 :: b3 :: rest =>
      Z.lor b0 (Z.lor (Z.shiftl b1 8) (Z.lor (Z.shiftl b2 16) (Z.shiftl b3 24)))
        :: le_words fuel' rest
  | _, _ => []
  end.

Fixpoint blocks (fuel : nat) (st : state) (ws : list Z) : state :=
  match fuel, ws with
  | S fuel', _ :: _ => blocks fuel' (compress st (firstn 16 ws)) (skipn 16 ws)
  | _, _ => st
  end.

Definition digest_bytes (msg : list Z) : list Z :=
  let padded := pad msg in
  let ws := le_words (length padded) padded in
  let '(State a b c d) := blocks (length ws) init ws in
  le_bytes 4 a ++ le_bytes 4 b ++ le_bytes 4 c ++ le_bytes 4 d.

Definition hex_digit (x : Z) : ascii :=
  nth (Z.to_nat x)
      [ "0"; "1"; "2"; "3"; "4"; "5"; "6"; "7";
        "8"; "9"; "a"; "b"; "c"; "d"; "e"; "f" ]%char "0"%char.

Fixpoint hex (bs : list Z) : string :=
  match bs with
  | [] => EmptyString
  | b :: rest =>
      String (hex_digit (Z.shiftr b 4)) (String (hex_digit (Z.land b 0xF)) (hex rest))
  end.

Definition byte_value (b : byte) : Z := Z.of_N (Byte.to_N b).

(** A [hashlib.md5()] object is the byte string fed to it so far:
    [update] appends, [hexdigest] digests everything accumulated. *)
Definition t := list byte.
Definition new : t := [].
Definition update (h : t) (data : list byte) : t := h ++ data.
Definition hexdigest (h : t) : string := hex (digest_bytes (map byte_value h)).

End MD5.

Definition encode (s : string) : list byte := list_byte_of_string s.

(** ** Python values and dictionaries *)

(** The values a primary-key attribute takes. *)
Inductive pyval :=
| PyInt (z : Z)
| PyStr (s : string)
| PyBool (b : bool)
| PyNone.

(** [str(v)]: a string is itself, an integer is printed in decimal. *)
Definition str (v : pyval) : string :=
  match v with
  | PyInt z => NilZero.string_of_int (Z.to_int z)
  | PyStr s => s
  | PyBool true => "True"
  | PyBool false => "False"
  | PyNone => "None"
  end.

(** A [dict] with string field names, as its items in insertion order.
    A Python dict holds every name once: [is_dict]. *)
Definition pydict := list (string * pyval).

Definition is_dict (d : pydict) : Prop := NoDup (map fst d).

Definition items (d : pydict) : list (string * pyval) := d.

(** The order [sorted] puts on the items of a dict.  Python compares the
    [(name, value)] tuples lexicographically; the names of a dict are
    pairwise distinct, so every comparison is settled by the names
    (strings compared character by character). *)
Definition item_le (a b : string * pyval) : Prop := String.le (fst a) (fst b).

#[global] Instance item_le_dec : RelDecision item_le.
Proof. intros a b. unfold item_le. apply _. Defined.

Definition sorted (l : list (string * pyval)) : list (string * pyval) :=
  merge_sort item_le l.

(** ** [key_hash] *)

(** The loop body: [hashed.update(str(v).encode())]. *)
Definition key_hash_step (hashed : MD5.t) (kv : string * pyval) : MD5.t :=
  let '(k, v) := kv in MD5.update hashed (encode (str v)).

Definition key_hash (key : pydict) : string :=
  let hashed := MD5.new in
  let hashed := fold_left key_hash_step (sorted (items key)) hashed in
  MD5.hexdigest hashed.

(** Everything the digest is fed for [key]: the encoded [str] of the values,
    in the order of [sorted]. *)
Definition digest_input (key : pydict) : list byte :=
  concat (map (fun kv => encode (str (snd kv))) (sorted (items key))).

(** A family of keys over the same two fields, used to exhibit collisions. *)

(** [n] copies of the letter x. *)
Fixpoint xs (n : nat) : string :=
  match n with
  | O => EmptyString
  | S n' => String "x" (xs n')
  end.

(** Ten thousand keys over the same two fields. *)
Definition corpus_size : nat := 100 * 100.

Definition split_key (i : nat) : pydict :=
  [("a", PyStr (xs i)); ("b", PyStr (xs (corpus_size - i)))].

Definition corpus : list pydict := map split_key (seq 0 corpus_size).

(** ** The job table

    One row of [~jobs], with the attributes of [JobRelation._definition];
    [table_name] and [key_hash] (above the [---] line) form the primary key. *)

Inductive status := st_reserved | st_error | st_ignore.

Definition blob := list byte.

Record JobRecord := mkJob {
  job_table_name : string;
  job_key_hash : string;
  job_status : status;
  job_key : option blob;
  job_error_message : string;
  job_error_stack : option blob;
  job_host : string;
  job_pid : N;
  job_timestamp : Z }.

(** The dict handed to [insert1]: the primary key and the status are always
    given, any other attribute may be left out. *)
Record tuple := mkTuple {
  table_name : string;
  key_hash_ : string;
  status_ : status;
  key_ : option blob;
  error_message_ : option string;
  error_stack_ : option blob;
  host_ : option string;
  pid_ : option N }.

Definition primary_key (t : tuple) : string * string := (table_name t, key_hash_ t).

(** The contents of the table, by primary key. *)
Abbreviation table := (gmap (string * string) JobRecord).

(** What goes wrong with the storage medium apart from the uniqueness
    constraint. *)
Inductive fault := Connectivity | Permission | SchemaMismatch.

Inductive exception :=
| IntegrityError                  (* [pymysql.err.IntegrityError] *)
| StorageUnavailable (f : fault).

(** ** A state and exception monad for the methods

    A method runs in the environment of the calling process (host name,
    process id, the server's clock and the condition of the medium during
    the call) on the shared table, and either returns or raises. *)

Record env := mkEnv {
  nodename : string;
  pid : N;
  clock : Z;
  medium : option fault }.

Inductive result (A : Type) :=
| Return (a : A)
| Raise (e : exception).
Arguments Return {A} a.
Arguments Raise {A} e.

Definition M (A : Type) : Type := env -> table -> result A * table.

Definition ret {A} (a : A) : M A := fun _ s => (Return a, s).

Definition bind {A B} (m : M A) (f : A -> M B) : M B :=
  fun e s =>
    match m e s with
    | (Return a, s') => f a e s'
    | (Raise x, s') => (Raise x, s')
    end.

Declare Scope py_scope.
Delimit Scope py_scope with py.
Notation "x <- m ;; k" := (bind m (fun x => k))
  (at level 100, m at next level, right associativity) : py_scope.
Notation "m ;; k" := (bind m (fun _ => k))
  (at level 100, right associativity) : py_scope.

(** [try: body  except exc: handler  else: orelse]. *)
Definition try_except_else {A B} (body : M A) (catches : exception -> bool)
    (handler : M B) (orelse : A -> M B) : M B :=
  fun e s =>
    match body e s with
    | (Return a, s') => orelse a e s'
    | (Raise x, s') => if catches x then handler e s' else (Raise x, s')
    end.

Definition is_IntegrityError (x : exception) : bool :=
  match x with IntegrityError => true | _ => false end.

(** [os.uname().nodename] and [os.getpid()]. *)
Definition os_uname_nodename : M string := fun e s => (Return (nodename e), s).
Definition os_getpid : M N := fun e s => (Return (pid e), s).

(** ** The storage primitives of [BaseRelation] *)

(** The row the server stores for a tuple: attributes left out take the
    defaults of [_definition] ([key=null], [error_message=""],
    [error_stack=null], [host=""], [pid=0], [timestamp=CURRENT_TIMESTAMP]). *)
Definition stored (now : Z) (t : tuple) : JobRecord :=
  {| job_table_name := table_name t;
     job_key_hash := key_hash_ t;
     job_status := status_ t;
     job_key := key_ t;
     job_error_message := default ""%string (error_message_ t);
     job_error_stack := error_stack_ t;
     job_host := default ""%string (host_ t);
     job_pid := default 0%N (pid_ t);
     job_timestamp := now |}.

(** Modelled from the spec: [BaseRelation.insert1] is not part of the
    sources.  Without [replace] it is the atomic conditional insert, which
    fails distinctly (with [IntegrityError]) when a record with the same
    primary key exists; with [replace] it is insert-or-replace, which removes
    any record with that primary key and inserts the new one.  Any other
    failure of the medium is raised as such and leaves the table alone. *)
Definition insert1 (tup : tuple) (replace : bool) : M unit :=
  fun e s =>
    match medium e with
    | Some f => (Raise (StorageUnavailable f), s)
    | None =>
        if replace then (Return tt, <[primary_key tup := stored (clock e) tup]> s)
        else match s !! primary_key tup with
             | Some _ => (Raise IntegrityError, s)
             | None => (Return tt, <[primary_key tup := stored (clock e) tup]> s)
             end
    end.

(** Modelled from the spec: the restriction [self & job_key] followed by
    [BaseRelation.delete_quick] is not part of the sources.  It is the
    unconditional delete by primary key; deleting a record that does not
    exist is not an error. *)
Definition delete_quick (job_key : string * string) : M unit :=
  fun e s =>
    match medium e with
    | Some f => (Raise (StorageUnavailable f), s)
    | None => (Return tt, delete job_key s)
    end.

(** ** [JobRelation] *)
Module JobRelation.
Local Open Scope py_scope.

Definition reserve (table_name : string) (key : pydict) : M bool :=
  try_except_else
    (host <- os_uname_nodename ;;
     pid <- os_getpid ;;
     let job_key :=
       {| table_name := table_name; key_hash_ := key_hash key;
          status_ := st_reserved; host_ := Some host; pid_ := Some pid;
          key_ := None; error_message_ := None; error_stack_ := None |} in
     insert1 job_key false)
    is_IntegrityError
    (ret false)
    (fun _ => ret true).

Definition complete (table_name : string) (key : pydict) : M unit :=
  let job_key := (table_name, key_hash key) in
  delete_quick job_key.

Definition error (table_name : string) (key : pydict) (error_message : string) : M unit :=
  let job_key := (table_name, key_hash key) in
  host <- os_uname_nodename ;;
  pid <- os_getpid ;;
  insert1
    {| table_name := fst job_key; key_hash_ := snd job_key;
       status_ := st_error; host_ := Some host; pid_ := Some pid;
       error_message_ := Some error_message;
       key_ := None; error_stack_ := None |}
    true.

End JobRelation.

(** The record [reserve] inserts and the record [error] leaves behind. *)
Definition reserved_record (e : env) (t : string) (k : pydict) : JobRecord :=
  {| job_table_name := t; job_key_hash := key_hash k; job_status := st_reserved;
     job_key := None; job_error_message := ""; job_error_stack := None;
     job_host := nodename e; job_pid := pid e; job_timestamp := clock e |}.

Definition error_record (e : env) (t : string) (k : pydict) (msg : string) : JobRecord :=
  {| job_table_name := t; job_key_hash := key_hash k; job_status := st_error;
     job_key := None; job_error_message := msg; job_error_stack := None;
     job_host := nodename e; job_pid := pid e; job_timestamp := clock e |}.

(** ** Sequences of calls by many workers

    Every call is issued by some process (its [env]); the table is shared and
    each storage primitive is atomic, so a concurrent execution is one
    interleaving of the calls. *)

Inductive call :=
| Reserve (table_name : string) (key : pydict)
| Complete (table_name : string) (key : pydict)
| Error (table_name : string) (key : pydict) (error_message : string).

(** What the caller sees: [Return (Some b)] is the boolean of [reserve],
    [Return None] the plain return of [complete] and [error]. *)
Abbreviation outcome := (result (option bool)).

Definition run_call (c : call) : M (option bool) :=
  match c with
  | Reserve t k => bind (JobRelation.reserve t k) (fun b => ret (Some b))
  | Complete t k => bind (JobRelation.complete t k) (fun _ => ret None)
  | Error t k msg => bind (JobRelation.error t k msg) (fun _ => ret None)
  end.

Fixpoint run (calls : list (env * call)) (s : table) : list outcome * table :=
  match calls with
  | [] => ([], s)
  | (e, c) :: rest =>
      let '(o, s') := run_call c e s in
      let '(os, s'') := run rest s' in
      (o :: os, s'')
  end.

(** The composite key a call is about. *)
Definition target (c : call) : string * string :=
  match c with
  | Reserve t k | Complete t k | Error t k _ => (t, key_hash k)
  end.

Definition is_reserve (c : call) : bool :=
  match c with Reserve _ _ => true | _ => false end.

Definition is_complete (c : call) : bool :=
  match c with Complete _ _ => true | _ => false end.

(** ** [JobManager]

    Python objects live in a heap and are handed around by reference;
    a reference is the index of the object in the heap. *)

Definition ref := nat.
Definition connection := nat.

Record JobRelationObj := mkJobRelation {
  database : option string;
  _connection : connection }.

(** The database server: the [~jobs] table of every database where it has
    been declared. *)
Abbreviation server := (gmap string table).

Record world := mkWorld {
  tables : server;
  heap : list JobRelationObj }.

(** Modelled from the spec: [BaseRelation.is_declared] and
    [BaseRelation.declare] are not part of the sources.  Declaring provisions
    the backing table when it is not there yet. *)
Definition is_declared (db : option string) (w : world) : bool :=
  match db with
  | Some d => bool_decide (is_Some (tables w !! d))
  | None => false
  end.

Definition declare (db : option string) (w : world) : world :=
  match db with
  | Some d =>
      match tables w !! d with
      | Some _ => w
      | None => {| tables := <[d := ∅]> (tables w); heap := heap w |}
      end
  | None => w
  end.

(** [JobRelation.__init__(arg, database=None)]; returns the reference of the
    new object.  [arg] is another [JobRelation] (copy constructor) or a
    connection. *)
Definition JobRelation_init (arg : ref + connection) (db : option string)
    (w : world) : option ref * world :=
  match arg with
  | inl other =>
      match heap w !! other with
      | Some o =>
          (Some (length (heap w)),
           {| tables := tables w;
              heap := heap w ++ [ {| database := database o;
                                     _connection := _connection o |} ] |})
      | None => (None, w)
      end
  | inr conn =>
      let self := length (heap w) in
      let w := {| tables := tables w;
                  heap := heap w ++ [ {| database := db; _connection := conn |} ] |} in
      let w := if is_declared db w then w else declare db w in
      (Some self, w)
  end.

Record JobManager := mkJobManager {
  connection_ : connection;
  _jobs : gmap string ref }.

Module JobManager.

Definition __init__ (conn : connection) : JobManager :=
  {| connection_ := conn; _jobs := ∅ |}.

(** [None] stands for the [KeyError] of the final [self._jobs[database]]. *)
Definition __getitem__ (self : JobManager) (database : string) (w : world)
    : option ref * JobManager * world :=
  let '(self, w) :=
    match _jobs self !! database with
    | None =>
        match JobRelation_init (inr (connection_ self)) (Some database) w with
        | (Some r, w') =>
            ({| connection_ := connection_ self;
                _jobs := <[database := r]> (_jobs self) |}, w')
        | (None, w') => (self, w')
        end
    | Some _ => (self, w)
    end in
  (_jobs self !! database, self, w).

(** A process asking for a sequence of namespaces. *)
Fixpoint requests (self : JobManager) (w : world) (ds : list string)
    : list (option ref) * JobManager * world :=
  match ds with
  | [] => ([], self, w)
  | d :: rest =>
      let '(r, self', w') := __getitem__ self d w in
      let '(rs, self'', w'') := requests self' w' rest in
      (r :: rs, self'', w'')
  end.

End JobManager.

(** The objects constructed between two states of the heap, and how many of
    them were made for database [d]. *)
Definition constructed (w0 w' : world) : list JobRelationObj :=
  drop (length (heap w0)) (heap w').

Definition built_for (d : string) (os : list JobRelationObj) : nat :=
  length (filter (fun o => database o = Some d) os).

(** The object [__getitem__] makes for [d]. *)
Definition store_of (self : JobManager) (d : string) : JobRelationObj :=
  {| database := Some d; _connection := connection_ self |}.

(** Every cached reference points to the object made for its database. *)
Definition cache_ok (self : JobManager) (w : world) : Prop :=
  forall d r, _jobs self !! d = Some r -> heap w !! r = Some (store_of self d).

(** ** Notions used by the properties *)

(** The characters of a hexadecimal digest. *)
Definition hex_digits : list ascii := list_ascii_of_string "0123456789abcdef".

(** An item with its value replaced by the string [str] prints for it. *)
Definition stringify (kv : string * pyval) : string * pyval :=
  (fst kv, PyStr (str (snd kv))).

(** The calls of a trace that are about the pair [p]. *)
Definition about (p : string * string) (ec : env * call) : Prop :=
  target (snd ec) = p.

#[global] Instance about_dec (p : string * string) (ec : env * call) : Decision (about p ec).
Proof. unfold about. apply _. Defined.

(** What holds of every row the three methods write: it is filed under its
    own primary key, its hash fills the [char(32)] column, its status is
    [reserved] or [error], its [key] and [error_stack] are [null], and a
    reservation carries no message. *)
Definition row_ok (pk : string * string) (r : JobRecord) : Prop :=
  (job_table_name r, job_key_hash r) = pk /\
  String.length (job_key_hash r) = 32 /\
  job_status r <> st_ignore /\
  job_key r = None /\ job_error_stack r = None /\
  (job_status r = st_reserved -> job_error_message r = ""%string).

Definition table_ok (s : table) : Prop :=
  forall pk r, s !! pk = Some r -> row_ok pk r.

(** * Properties *)

(** ** The digest on test vectors *)

Example md5_empty : MD5.hexdigest (MD5.update MD5.new (encode "")) = "d41d8cd98f00b204e9800998ecf8427e"%string.
Proof. vm_compute. reflexivity. Qed.
Example md5_a : MD5.hexdigest (MD5.update MD5.new (encode "a")) = "0cc175b9c0f1b6a831c399e269772661"%string.
Proof. vm_compute. reflexivity. Qed.
Example md5_abc : MD5.hexdigest (MD5.update MD5.new (encode "abc")) = "900150983cd24fb0d6963f7d28e17f72"%string.
Proof. vm_compute. reflexivity. Qed.
Example key_hash_id1 :
  key_hash [("id", PyInt 1)] = "c4ca4238a0b923820dcc509a6f75849b".
Proof. vm_compute. reflexivity. Qed.

(** ** Hashing *)

Lemma fold_key_hash_step (l : list (string * pyval)) (h : MD5.t) :
  fold_left key_hash_step l h = h ++ concat (map (fun kv => encode (str (snd kv))) l).
Proof.
  revert h. induction l as [|[k v] l IH]; intros h; simpl.
  - by rewrite app_nil_r.
  - rewrite IH. unfold MD5.update. by rewrite <- app_assoc.
Qed.

Lemma key_hash_digest_input (key : pydict) :
  key_hash key = MD5.hexdigest (digest_input key).
Proof. unfold key_hash, digest_input. by rewrite fold_key_hash_step. Qed.

#[global] Instance item_le_trans : Transitive item_le.
Proof. intros a b c. unfold item_le. apply transitivity. Qed.

#[global] Instance item_le_total : Total item_le.
Proof. intros a b. unfold item_le. apply total, _. Qed.

(** In a dict an item is determined by its name. *)
Lemma dict_item_unique (d : pydict) (a b : string * pyval) :
  is_dict d -> a ∈ d -> b ∈ d -> fst a = fst b -> a = b.
Proof.
  unfold is_dict. induction d as [|x d IH]; simpl; intros Hnd Ha Hb Hab.
  - by apply not_elem_of_nil in Ha.
  - apply NoDup_cons in Hnd as [Hx Hnd].
    apply elem_of_cons in Ha as [->|Ha]; apply elem_of_cons in Hb as [->|Hb]; auto.
    + exfalso. apply Hx. rewrite Hab. by apply list_elem_of_fmap_2.
    + exfalso. apply Hx. rewrite <- Hab. by apply list_elem_of_fmap_2.
Qed.

Lemma is_dict_perm (d d' : pydict) : is_dict d -> d ≡ₚ d' -> is_dict d'.
Proof. unfold is_dict. intros Hd Hp. by rewrite <- Hp. Qed.

(** [sorted] forgets the insertion order of a dict. *)
Lemma sorted_perm (d d' : pydict) :
  is_dict d -> d ≡ₚ d' -> sorted d = sorted d'.
Proof.
  intros Hd Hp. unfold sorted.
  apply (Sorted_unique_strong item_le).
  - intros a b Ha Hb Hab Hba.
    rewrite merge_sort_Permutation in Ha, Hb. rewrite <- Hp in Hb.
    apply (dict_item_unique d); auto.
    unfold item_le in *. by apply (anti_symm String.le).
  - apply Sorted_merge_sort, _.
  - apply Sorted_merge_sort, _.
  - by rewrite !merge_sort_Permutation.
Qed.


(** C6: for a key mapping [k] and any reordering [k'] of its entries,
    [key_hash k' = key_hash k]: the entries are sorted on field name before
    they are hashed, so the insertion order does not reach the digest. *)
Theorem key_hash_order_independent (k k' : pydict) :
  is_dict k -> Permutation k k' -> key_hash k = key_hash k'.
Proof.
  intros Hd Hp. unfold key_hash, items. by rewrite (sorted_perm k k').
Qed.

Lemma key_hash_order_independent_witness :
  let k := [("id", PyInt 1); ("session", PyInt 7); ("cell", PyStr "a3")] in
  let k' := [("cell", PyStr "a3"); ("id", PyInt 1); ("session", PyInt 7)] in
  is_dict k /\ Permutation k k' /\ key_hash k = key_hash k'.
Proof.
  intros k k'.
  assert (Hd : is_dict k).
  { unfold is_dict. simpl. apply (bool_decide_unpack _). vm_compute. reflexivity. }
  assert (Hp : Permutation k k').
  { unfold k, k'. apply Permutation_sym, Permutation_cons_append. }
  split; [exact Hd|]. split; [exact Hp|].
  exact (key_hash_order_independent k k' Hd Hp).
Defined.




(** ** Collisions *)

Lemma encode_app (s1 s2 : string) :
  encode (s1 ++ s2) = encode s1 ++ encode s2.
Proof.
  unfold encode, list_byte_of_string.
  induction s1 as [|c s1 IH]; [done|].
  change (String c s1 ++ s2)%string with (String c (s1 ++ s2)).
  simpl. by rewrite IH.
Qed.

Lemma xs_app (i j : nat) : (xs i ++ xs j)%string = xs (i + j).
Proof.
  induction i as [|i IH]; [done|].
  change (xs (S i) ++ xs j)%string with (String "x" (xs i ++ xs j)).
  by rewrite IH.
Qed.

Lemma xs_inj (i j : nat) : xs i = xs j -> i = j.
Proof.
  revert j. induction i as [|i IH]; intros [|j]; simpl; intros H; try done.
  f_equal. apply IH. by injection H.
Qed.

Lemma sorted_a_b (v w : pyval) :
  sorted [("a", v); ("b", w)] = [("a", v); ("b", w)].
Proof. reflexivity. Qed.

Lemma split_key_digest_input (i : nat) :
  i <= corpus_size -> digest_input (split_key i) = encode (xs corpus_size).
Proof.
  intros Hi. unfold digest_input, split_key, items. rewrite sorted_a_b. simpl.
  rewrite app_nil_r, <- encode_app, xs_app.
  by replace (i + (corpus_size - i)) with corpus_size by lia.
Qed.

Lemma split_key_is_dict (i : nat) : is_dict (split_key i).
Proof.
  unfold is_dict, split_key. simpl.
  apply (bool_decide_unpack _). vm_compute. reflexivity.
Qed.

Lemma split_key_distinct (i j : nat) :
  Permutation (split_key i) (split_key j) -> i = j.
Proof.
  intros Hp.
  assert (Hin : ("a", PyStr (xs i)) ∈ split_key j).
  { rewrite <- Hp. unfold split_key. apply elem_of_cons. by left. }
  unfold split_key in Hin.
  apply elem_of_cons in Hin as [Hin|Hin].
  - apply xs_inj. congruence.
  - apply list_elem_of_singleton in Hin. discriminate.
Qed.

Lemma corpus_lookup (i : nat) (k : pydict) :
  corpus !! i = Some k -> i < corpus_size /\ k = split_key i.
Proof.
  unfold corpus. rewrite list_lookup_fmap. intros H.
  destruct (seq 0 corpus_size !! i) as [n|] eqn:Hn; [|done].
  apply lookup_seq in Hn as [-> ?]. simpl in H. split; [done|congruence].
Qed.

(** C2 does not hold of the code: distinct keys need not hash differently.
    [key_hash] puts nothing between the values it feeds to the digest, so the
    distinct keys [{"a": 1, "b": 23}] and [{"a": 12, "b": 3}] both feed the
    bytes [123] and have the same hash; and [corpus] holds ten thousand
    pairwise distinct keys, every two of which have the same hash. *)
Lemma key_hash_collisions :
  (let k1 := [("a", PyInt 1); ("b", PyInt 23)] in
   let k2 := [("a", PyInt 12); ("b", PyInt 3)] in
   is_dict k1 /\ is_dict k2 /\ ~ Permutation k1 k2 /\ key_hash k1 = key_hash k2) /\
  (Z.of_nat (length corpus) = 10000%Z /\
   Forall is_dict corpus /\
   (forall i j ki kj, corpus !! i = Some ki -> corpus !! j = Some kj ->
                      i <> j -> ~ Permutation ki kj) /\
   (forall ki kj, ki ∈ corpus -> kj ∈ corpus -> key_hash ki = key_hash kj)).
Proof.
  split; [|split; [|split; [|split]]].
  - cbv zeta. split; [|split; [|split]].
    + unfold is_dict. apply (bool_decide_unpack _). vm_compute. reflexivity.
    + unfold is_dict. apply (bool_decide_unpack _). vm_compute. reflexivity.
    + intros Hp.
      assert (Hin : ("a", PyInt 1) ∈ [("a", PyInt 12); ("b", PyInt 3)]).
      { rewrite <- Hp. apply elem_of_cons. by left. }
      apply elem_of_cons in Hin as [Hin|Hin]; [discriminate|].
      apply list_elem_of_singleton in Hin. discriminate.
    + vm_compute. reflexivity.
  - unfold corpus. rewrite length_map, length_seq. reflexivity.
  - apply Forall_forall. intros k Hk.
    apply list_elem_of_lookup in Hk as [i Hi].
    apply corpus_lookup in Hi as [_ ->]. apply split_key_is_dict.
  - intros i j ki kj Hi Hj Hij Hp.
    apply corpus_lookup in Hi as [_ ->]. apply corpus_lookup in Hj as [_ ->].
    by apply Hij, split_key_distinct.
  - intros ki kj Hi Hj.
    apply list_elem_of_lookup in Hi as [i Hi]. apply list_elem_of_lookup in Hj as [j Hj].
    apply corpus_lookup in Hi as [? ->]. apply corpus_lookup in Hj as [? ->].
    rewrite !key_hash_digest_input, !split_key_digest_input by lia. reflexivity.
Qed.

(** ** The three operations on the table *)

Lemma reserve_eq (t : string) (k : pydict) (e : env) (s : table) :
  JobRelation.reserve t k e s =
  match medium e with
  | Some f => (Raise (StorageUnavailable f), s)
  | None =>
      match s !! (t, key_hash k) with
      | Some _ => (Return false, s)
      | None => (Return true, <[(t, key_hash k) := reserved_record e t k]> s)
      end
  end.
Proof.
  unfold JobRelation.reserve, try_except_else, bind, os_uname_nodename, os_getpid,
    insert1, ret, primary_key. simpl.
  destruct (medium e); [done|].
  by destruct (s !! (t, key_hash k)).
Qed.

Lemma complete_eq (t : string) (k : pydict) (e : env) (s : table) :
  JobRelation.complete t k e s =
  match medium e with
  | Some f => (Raise (StorageUnavailable f), s)
  | None => (Return tt, delete (t, key_hash k) s)
  end.
Proof. reflexivity. Qed.

Lemma error_eq (t : string) (k : pydict) (msg : string) (e : env) (s : table) :
  JobRelation.error t k msg e s =
  match medium e with
  | Some f => (Raise (StorageUnavailable f), s)
  | None => (Return tt, <[(t, key_hash k) := error_record e t k msg]> s)
  end.
Proof.
  unfold JobRelation.error, bind, os_uname_nodename, os_getpid, insert1, primary_key.
  simpl. by destruct (medium e).
Qed.

(** The conditional insert fails with [IntegrityError] exactly when the
    medium works and the primary key is taken. *)
Lemma insert1_duplicate (tup : tuple) (e : env) (s : table) :
  fst (insert1 tup false e s) = Raise IntegrityError <->
  medium e = None /\ is_Some (s !! primary_key tup).
Proof.
  unfold insert1. destruct (medium e) as [f|]; simpl.
  - split; [discriminate|]. by intros [? _].
  - destruct (s !! primary_key tup) eqn:Hs; simpl.
    + split; [|done]. intros _. split; [done|]. by eexists.
    + split; [discriminate|]. intros [_ [? ?]]. discriminate.
Qed.

(** C3: [reserve] returns [False] exactly when the conditional insert fails
    because a record with the same [(table_name, key_hash)] exists (the table
    is then left as it was); that case never reaches the caller as an
    exception, and any other failure of the medium is raised to the caller
    unchanged. *)
Theorem reserve_false_iff_duplicate (t : string) (k : pydict) (e : env) (s : table) :
  (fst (JobRelation.reserve t k e s) = Return false <->
   medium e = None /\ is_Some (s !! (t, key_hash k))) /\
  (fst (JobRelation.reserve t k e s) = Return false -> snd (JobRelation.reserve t k e s) = s) /\
  fst (JobRelation.reserve t k e s) <> Raise IntegrityError /\
  (forall f, medium e = Some f ->
             JobRelation.reserve t k e s = (Raise (StorageUnavailable f), s)) /\
  (forall x, fst (JobRelation.reserve t k e s) = Raise x ->
             exists f, medium e = Some f /\ x = StorageUnavailable f).
Proof.
  rewrite reserve_eq.
  destruct (medium e) as [f|] eqn:Hm; simpl.
  - repeat split; try discriminate.
    + by intros [? _].
    + intros f' [= ->]. reflexivity.
    + intros x [= <-]. by exists f.
  - destruct (s !! (t, key_hash k)) eqn:Hs; simpl.
    + repeat split; try discriminate; eauto.
    + repeat split; try discriminate.
      intros [_ [? ?]]. discriminate.
Qed.

Lemma reserve_false_iff_duplicate_witness :
  let e := {| nodename := "node1"; pid := 4242; clock := 100; medium := None |} in
  let down := {| nodename := "node2"; pid := 17; clock := 101; medium := Some Connectivity |} in
  let k := [("id", PyInt 1)] in
  let s := <[("T", key_hash k) := reserved_record e "T" k]> (∅ : table) in
  fst (JobRelation.reserve "T" k e s) = Return false /\
  JobRelation.reserve "T" k down s = (Raise (StorageUnavailable Connectivity), s).
Proof.
  intros e down k s. split.
  - apply (proj1 (reserve_false_iff_duplicate "T" k e s)).
    split; [reflexivity|]. unfold s. rewrite lookup_insert_eq. by eexists.
  - apply (proj1 (proj2 (proj2 (proj2 (reserve_false_iff_duplicate "T" k down s))))).
    reflexivity.
Defined.

(** C8: with the medium at work, [complete] deletes the record of
    [(table_name, key_hash)] when there is one and returns without raising
    whatever the table holds; on a table with no such record nothing changes,
    and completing twice is completing once. *)
Theorem complete_deletes_and_is_idempotent (t : string) (k : pydict) (e e' : env) (s : table) :
  medium e = None -> medium e' = None ->
  exists s',
    JobRelation.complete t k e s = (Return tt, s') /\
    s' !! (t, key_hash k) = None /\
    (forall pk, pk <> (t, key_hash k) -> s' !! pk = s !! pk) /\
    (s !! (t, key_hash k) = None -> s' = s) /\
    JobRelation.complete t k e' s' = (Return tt, s').
Proof.
  intros He He'. exists (delete (t, key_hash k) s).
  rewrite !complete_eq, He, He'.
  repeat split.
  - apply lookup_delete_eq.
  - intros pk Hpk. by apply lookup_delete_ne.
  - apply delete_id.
  - f_equal. apply delete_id, lookup_delete_eq.
Qed.

Lemma complete_deletes_and_is_idempotent_witness :
  let e := {| nodename := "node1"; pid := 4242; clock := 100; medium := None |} in
  exists s',
    JobRelation.complete "T" [("id", PyInt 1)] e ∅ = (Return tt, s') /\
    s' !! ("T", key_hash [("id", PyInt 1)]) = None /\
    (forall pk, pk <> ("T", key_hash [("id", PyInt 1)]) -> s' !! pk = (∅ : table) !! pk) /\
    ((∅ : table) !! ("T", key_hash [("id", PyInt 1)]) = None -> s' = ∅) /\
    JobRelation.complete "T" [("id", PyInt 1)] e s' = (Return tt, s').
Proof.
  intros e.
  exact (complete_deletes_and_is_idempotent "T" [("id", PyInt 1)] e e ∅ eq_refl eq_refl).
Defined.

(** C7: once [reserve] has returned [True], [complete] deletes the
    reservation and a further [reserve] of the same key and table returns
    [True] again. *)
Theorem reserve_complete_reserve (t : string) (k : pydict) (e1 e2 e3 : env) (s s1 : table) :
  JobRelation.reserve t k e1 s = (Return true, s1) ->
  medium e2 = None -> medium e3 = None ->
  exists s2 s3,
    JobRelation.complete t k e2 s1 = (Return tt, s2) /\
    s2 !! (t, key_hash k) = None /\
    JobRelation.reserve t k e3 s2 = (Return true, s3) /\
    s3 !! (t, key_hash k) = Some (reserved_record e3 t k).
Proof.
  intros _ He2 He3.
  exists (delete (t, key_hash k) s1),
    (<[(t, key_hash k) := reserved_record e3 t k]> (delete (t, key_hash k) s1)).
  rewrite complete_eq, reserve_eq, He2, He3, lookup_delete_eq, lookup_insert_eq.
  done.
Qed.

Lemma reserve_complete_reserve_witness :
  let e := {| nodename := "node1"; pid := 4242; clock := 100; medium := None |} in
  let k := [("id", PyInt 1)] in
  exists s2 s3,
    JobRelation.complete "T" k e (<[("T", key_hash k) := reserved_record e "T" k]> ∅) = (Return tt, s2) /\
    s2 !! ("T", key_hash k) = None /\
    JobRelation.reserve "T" k e s2 = (Return true, s3) /\
    s3 !! ("T", key_hash k) = Some (reserved_record e "T" k).
Proof.
  intros e k.
  apply (reserve_complete_reserve "T" k e e e ∅); [|reflexivity|reflexivity].
  rewrite reserve_eq. reflexivity.
Defined.

(** C4: once [reserve] has returned [True], [error] with message [msg]
    leaves a record for that [(table_name, key_hash)] with status [error] and
    that message, and a further [reserve] returns [False]: the error record
    still blocks the key. *)
Theorem error_blocks_reserve (t : string) (k : pydict) (msg : string)
    (e1 e2 e3 : env) (s s1 : table) :
  JobRelation.reserve t k e1 s = (Return true, s1) ->
  medium e2 = None -> medium e3 = None ->
  exists s2 r,
    JobRelation.error t k msg e2 s1 = (Return tt, s2) /\
    s2 !! (t, key_hash k) = Some r /\
    job_status r = st_error /\ job_error_message r = msg /\
    JobRelation.reserve t k e3 s2 = (Return false, s2).
Proof.
  intros _ He2 He3.
  exists (<[(t, key_hash k) := error_record e2 t k msg]> s1), (error_record e2 t k msg).
  rewrite error_eq, reserve_eq, He2, He3, lookup_insert_eq. done.
Qed.

Lemma error_blocks_reserve_witness :
  let e := {| nodename := "node1"; pid := 4242; clock := 100; medium := None |} in
  let k := [("id", PyInt 1)] in
  exists s2 r,
    JobRelation.error "T" k "boom" e (<[("T", key_hash k) := reserved_record e "T" k]> ∅)
      = (Return tt, s2) /\
    s2 !! ("T", key_hash k) = Some r /\
    job_status r = st_error /\ job_error_message r = "boom" /\
    JobRelation.reserve "T" k e s2 = (Return false, s2).
Proof.
  intros e k.
  apply (error_blocks_reserve "T" k "boom" e e e ∅); [|reflexivity|reflexivity].
  rewrite reserve_eq. reflexivity.
Defined.

(** Against C5: the record [error] leaves behind carries neither a copy of
    the key nor an error stack.  [error] has no parameter for a stack, and it
    hands [insert1] neither [key] nor [error_stack], so both columns take
    their [null] default. *)
Lemma error_keeps_no_key_copy :
  let e := {| nodename := "node1"; pid := 4242; clock := 100; medium := None |} in
  let k := [("id", PyInt 1)] in
  let s := snd (JobRelation.error "T" k "boom" e ∅) in
  (exists r, s !! ("T", key_hash k) = Some r /\
             job_key r = None /\ job_error_stack r = None) /\
  ~ (exists r copy, s !! ("T", key_hash k) = Some r /\ job_key r = Some copy).
Proof.
  cbv zeta. rewrite error_eq. cbn [medium snd]. rewrite lookup_insert_eq. split.
  - eexists. split; [reflexivity|]. split; reflexivity.
  - intros (r & copy & Hr & Hk). injection Hr as <-. discriminate.
Qed.

(** C5, amended: [error(table_name, key, error_message)] takes no stack
    argument; with the medium at work it is an insert-or-replace, whatever the
    table held for [(table_name, key_hash)], of the record with status
    [error], the given message and the host name and pid of the caller; the
    [key] and [error_stack] columns of that record are [null]. *)
Theorem error_replaces_record (t : string) (k : pydict) (msg : string) (e : env) (s : table) :
  medium e = None ->
  exists s',
    JobRelation.error t k msg e s = (Return tt, s') /\
    s' !! (t, key_hash k) =
      Some {| job_table_name := t; job_key_hash := key_hash k; job_status := st_error;
              job_key := None; job_error_message := msg; job_error_stack := None;
              job_host := nodename e; job_pid := pid e; job_timestamp := clock e |} /\
    (forall pk, pk <> (t, key_hash k) -> s' !! pk = s !! pk).
Proof.
  intros He. exists (<[(t, key_hash k) := error_record e t k msg]> s).
  rewrite error_eq, He, lookup_insert_eq. repeat split.
  intros pk Hpk. by apply lookup_insert_ne.
Qed.

Lemma error_replaces_record_witness :
  let e := {| nodename := "node1"; pid := 4242; clock := 100; medium := None |} in
  let e' := {| nodename := "node2"; pid := 17; clock := 160; medium := None |} in
  let k := [("id", PyInt 1)] in
  let s := <[("T", key_hash k) := reserved_record e "T" k]> (∅ : table) in
  exists s',
    JobRelation.error "T" k "boom" e' s = (Return tt, s') /\
    s' !! ("T", key_hash k) =
      Some {| job_table_name := "T"; job_key_hash := key_hash k; job_status := st_error;
              job_key := None; job_error_message := "boom"; job_error_stack := None;
              job_host := "node2"; job_pid := 17; job_timestamp := 160 |} /\
    (forall pk, pk <> ("T", key_hash k) -> s' !! pk = s !! pk).
Proof.
  intros e e' k s.
  exact (error_replaces_record "T" k "boom" e' s eq_refl).
Defined.

(** ** Sequences of calls *)

Lemma run_cons (e : env) (c : call) (rest : list (env * call)) (s : table) :
  run ((e, c) :: rest) s =
  (fst (run_call c e s) :: fst (run rest (snd (run_call c e s))),
   snd (run rest (snd (run_call c e s)))).
Proof.
  simpl. destruct (run_call c e s) as [o s']. simpl.
  by destruct (run rest s') as [os s''].
Qed.

Lemma run_call_eq (c : call) (e : env) (s : table) :
  run_call c e s =
  match medium e with
  | Some f => (Raise (StorageUnavailable f), s)
  | None =>
      match c with
      | Reserve t k =>
          match s !! (t, key_hash k) with
          | Some _ => (Return (Some false), s)
          | None => (Return (Some true), <[(t, key_hash k) := reserved_record e t k]> s)
          end
      | Complete t k => (Return None, delete (t, key_hash k) s)
      | Error t k msg => (Return None, <[(t, key_hash k) := error_record e t k msg]> s)
      end
  end.
Proof.
  destruct c as [t k|t k|t k msg]; unfold run_call, bind, ret.
  - rewrite reserve_eq. destruct (medium e); [done|].
    by destruct (s !! (t, key_hash k)).
  - rewrite complete_eq. by destruct (medium e).
  - rewrite error_eq. by destruct (medium e).
Qed.

(** A record is only ever removed by a [complete] on its own key that
    returns. *)
Lemma run_call_keeps (p : string * string) (c : call) (e : env) (s : table) :
  is_Some (s !! p) ->
  is_Some (snd (run_call c e s) !! p) \/
  (is_complete c = true /\ target c = p /\ fst (run_call c e s) = Return None).
Proof.
  intros Hp. rewrite run_call_eq.
  destruct (medium e); [by left|].
  destruct c as [t k|t k|t k msg]; simpl.
  - destruct (s !! (t, key_hash k)) eqn:Hs; simpl; [by left|].
    left. destruct (decide ((t, key_hash k) = p)) as [->|Hne].
    + rewrite lookup_insert_eq. by eexists.
    + by rewrite lookup_insert_ne.
  - destruct (decide ((t, key_hash k) = p)) as [->|Hne]; [by right|].
    left. by rewrite lookup_delete_ne.
  - left. destruct (decide ((t, key_hash k) = p)) as [->|Hne].
    + rewrite lookup_insert_eq. by eexists.
    + by rewrite lookup_insert_ne.
Qed.

Lemma reserve_true_inv (c : call) (e : env) (s : table) :
  fst (run_call c e s) = Return (Some true) ->
  is_reserve c = true /\ s !! target c = None /\
  is_Some (snd (run_call c e s) !! target c).
Proof.
  rewrite run_call_eq. destruct (medium e); [discriminate|].
  destruct c as [t k|t k|t k msg]; simpl; try discriminate.
  destruct (s !! (t, key_hash k)) eqn:Hs; simpl; [discriminate|].
  intros _. rewrite lookup_insert_eq. repeat split. by eexists.
Qed.

(** While the record of [p] is there, a [reserve] of [p] that returns [True]
    comes after a [complete] of [p] that returned. *)
Lemma run_blocked (p : string * string) (calls : list (env * call)) :
  forall (s : table) (j : nat) (ej : env) (cj : call),
    is_Some (s !! p) ->
    calls !! j = Some (ej, cj) -> target cj = p ->
    fst (run calls s) !! j = Some (Return (Some true)) ->
    exists m em cm,
      m < j /\ calls !! m = Some (em, cm) /\ is_complete cm = true /\
      target cm = p /\ fst (run calls s) !! m = Some (Return None).
Proof.
  induction calls as [|[e c] rest IH]; intros s j ej cj Hp Hj Htj Hoj; [done|].
  rewrite run_cons in Hoj |- *. simpl in Hoj |- *.
  destruct j as [|j]; simpl in Hj, Hoj.
  - injection Hj as -> ->. injection Hoj as Hoj.
    apply reserve_true_inv in Hoj as (_ & Hnone & _).
    rewrite Htj in Hnone. rewrite Hnone in Hp. by destruct Hp.
  - destruct (run_call_keeps p c e s Hp) as [Hp'|(Hc & Htc & Ho)].
    + destruct (IH _ j ej cj Hp' Hj Htj Hoj) as (m & em & cm & Hm & Hcm & Hic & Htm & Hom).
      exists (S m), em, cm. repeat split; [lia|done..].
    + exists 0, e, c. repeat split; [lia|done|done|]. simpl. by rewrite Ho.
Qed.


Lemma run_exclusive (p : string * string) (calls : list (env * call)) :
  forall (s0 : table) (i j : nat) (ei ej : env) (ci cj : call),
    i < j ->
    calls !! i = Some (ei, ci) -> target ci = p ->
    calls !! j = Some (ej, cj) -> target cj = p ->
    fst (run calls s0) !! i = Some (Return (Some true)) ->
    fst (run calls s0) !! j = Some (Return (Some true)) ->
    exists m em cm,
      i < m < j /\ calls !! m = Some (em, cm) /\ is_complete cm = true /\
      target cm = p /\ fst (run calls s0) !! m = Some (Return None).
Proof.
  induction calls as [|[e c] rest IH];
    intros s0 i j ei ej ci cj Hij Hi Hti Hj Htj Hoi Hoj; [done|].
  rewrite run_cons in Hoi, Hoj |- *. simpl in Hoi, Hoj.
  destruct j as [|j]; [lia|]. simpl in Hj, Hoj.
  destruct i as [|i]; simpl in Hi, Hoi.
  - assert (e = ei /\ c = ci) as [-> ->] by (split; congruence).
    assert (Hoi' : fst (run_call ci ei s0) = Return (Some true)) by congruence.
    apply reserve_true_inv in Hoi' as (_ & _ & Hp). rewrite Hti in Hp.
    destruct (run_blocked p rest _ j ej cj Hp Hj Htj Hoj)
      as (m & em & cm & Hm & Hcm & Hic & Htm & Hom).
    exists (S m), em, cm. repeat split; [lia|lia|done..].
  - destruct (IH _ i j ei ej ci cj ltac:(lia) Hi Hti Hj Htj Hoi Hoj)
      as (m & em & cm & Hm & Hcm & Hic & Htm & Hom).
    exists (S m), em, cm. repeat split; [lia|lia|done..].
Qed.

(** Calls that complete nothing of [p] leave its record in place. *)
Lemma run_keeps (p : string * string) (calls : list (env * call)) :
  forall s : table,
    is_Some (s !! p) ->
    (forall e c, (e, c) ∈ calls -> is_complete c = true -> target c <> p) ->
    is_Some (snd (run calls s) !! p).
Proof.
  induction calls as [|[e c] rest IH]; intros s Hp Hno; [done|].
  rewrite run_cons. simpl.
  apply IH.
  - destruct (run_call_keeps p c e s Hp) as [Hp'|(Hc & Htc & _)]; [done|].
    exfalso. apply (Hno e c); [apply elem_of_cons; by left|done..].
  - intros e' c' Hin. apply (Hno e' c'). apply elem_of_cons. by right.
Qed.

Lemma run_app (l1 l2 : list (env * call)) (s : table) :
  run (l1 ++ l2) s =
  (fst (run l1 s) ++ fst (run l2 (snd (run l1 s))), snd (run l2 (snd (run l1 s)))).
Proof.
  revert s. induction l1 as [|[e c] l1 IH]; intros s.
  - simpl. by destruct (run l2 s).
  - rewrite <- app_comm_cons, !run_cons, IH. reflexivity.
Qed.

Lemma run_length (calls : list (env * call)) (s : table) :
  length (fst (run calls s)) = length calls.
Proof.
  revert s. induction calls as [|[e c] rest IH]; intros s; [done|].
  rewrite run_cons. simpl. by rewrite IH.
Qed.

(** C1: take one pair [p] of table name and key hash and any sequence of
    [reserve], [complete] and [error] calls issued by any processes, run from
    any table.  Between two [reserve] calls of [p] that both return [True]
    there is a [complete] of [p] that returned: at most one [reserve] returns
    [True] without an intervening [complete].  In particular, from a table
    with no record for [p], a first [reserve] returns [True], and a second
    one returns [False] when no [complete] of [p] was issued in between. *)
Theorem reserve_mutual_exclusion (p : string * string) (calls : list (env * call)) (s0 : table) :
  (forall i j ei ti ki ej tj kj,
     i < j ->
     calls !! i = Some (ei, Reserve ti ki) -> (ti, key_hash ki) = p ->
     calls !! j = Some (ej, Reserve tj kj) -> (tj, key_hash kj) = p ->
     fst (run calls s0) !! i = Some (Return (Some true)) ->
     fst (run calls s0) !! j = Some (Return (Some true)) ->
     exists m em tm km,
       i < m < j /\ calls !! m = Some (em, Complete tm km) /\
       (tm, key_hash km) = p /\ fst (run calls s0) !! m = Some (Return None)) /\
  (s0 !! p = None ->
   forall e1 e2 t k mid,
     (t, key_hash k) = p -> medium e1 = None -> medium e2 = None ->
     (forall e c, (e, c) ∈ mid -> is_complete c = true -> target c <> p) ->
     let os := fst (run ((e1, Reserve t k) :: mid ++ [(e2, Reserve t k)]) s0) in
     os !! 0 = Some (Return (Some true)) /\
     os !! (S (length mid)) = Some (Return (Some false))).
Proof.
  split.
  - intros i j ei ti ki ej tj kj Hij Hi Hti Hj Htj Hoi Hoj.
    destruct (run_exclusive p calls s0 i j ei ej _ _ Hij Hi Hti Hj Htj Hoi Hoj)
      as (m & em & cm & Hm & Hcm & Hic & Htm & Hom).
    destruct cm as [| tm km |]; try discriminate.
    by exists m, em, tm, km.
  - intros Hs0 e1 e2 t k mid <- He1 He2 Hmid os. subst os.
    rewrite run_cons, run_app. cbn [fst snd].
    assert (H1 : run_call (Reserve t k) e1 s0 =
                 (Return (Some true), <[(t, key_hash k) := reserved_record e1 t k]> s0)).
    { by rewrite run_call_eq, He1, Hs0. }
    rewrite H1. cbn [fst snd]. split; [reflexivity|].
    change ((?x :: ?l) !! S ?n) with (l !! n).
    rewrite lookup_app_r by (rewrite run_length; lia).
    rewrite run_length, Nat.sub_diag, run_cons. cbn [lookup list_lookup fst].
    rewrite run_call_eq, He2.
    destruct (run_keeps (t, key_hash k) mid
                (<[(t, key_hash k) := reserved_record e1 t k]> s0)) as [r Hr].
    + rewrite lookup_insert_eq. by eexists.
    + done.
    + by rewrite Hr.
Qed.

Lemma reserve_mutual_exclusion_witness :
  let e1 := {| nodename := "node1"; pid := 4242; clock := 100; medium := None |} in
  let e2 := {| nodename := "node2"; pid := 17; clock := 101; medium := None |} in
  let k := [("id", PyInt 1)] in
  let calls := [(e1, Reserve "T" k); (e1, Complete "T" k); (e2, Reserve "T" k)] in
  (exists m em tm km,
     0 < m < 2 /\ calls !! m = Some (em, Complete tm km) /\
     (tm, key_hash km) = ("T", key_hash k) /\
     fst (run calls ∅) !! m = Some (Return None)) /\
  (fst (run [(e1, Reserve "T" k); (e2, Reserve "T" k)] ∅) !! 0 = Some (Return (Some true)) /\
   fst (run [(e1, Reserve "T" k); (e2, Reserve "T" k)] ∅) !! 1 = Some (Return (Some false))).
Proof.
  intros e1 e2 k calls. split.
  - apply (proj1 (reserve_mutual_exclusion ("T", key_hash k) calls ∅) 0 2 e1 "T" k e2 "T" k).
    + lia.
    + reflexivity.
    + reflexivity.
    + reflexivity.
    + reflexivity.
    + vm_compute. reflexivity.
    + vm_compute. reflexivity.
  - apply (proj2 (reserve_mutual_exclusion ("T", key_hash k) [] ∅) (lookup_empty _) e1 e2 "T" k []).
    + reflexivity.
    + reflexivity.
    + reflexivity.
    + intros e c Hin. by apply not_elem_of_nil in Hin.
Defined.

(** ** [JobManager] *)

Lemma getitem_cached (self : JobManager) (d : string) (w : world) (r : ref) :
  _jobs self !! d = Some r -> JobManager.__getitem__ self d w = (Some r, self, w).
Proof. intros H. unfold JobManager.__getitem__. rewrite H. cbn. by rewrite H. Qed.

Lemma getitem_fresh (self : JobManager) (d : string) (w : world) :
  _jobs self !! d = None ->
  exists tbls,
    JobManager.__getitem__ self d w =
    (Some (length (heap w)),
     {| connection_ := connection_ self;
        _jobs := <[d := length (heap w)]> (_jobs self) |},
     {| tables := tbls; heap := heap w ++ [store_of self d] |}) /\
    is_Some (tbls !! d) /\
    (forall d', is_Some (tables w !! d') -> tbls !! d' = tables w !! d') /\
    (is_Some (tables w !! d) -> tbls = tables w).
Proof.
  intros H. unfold JobManager.__getitem__, JobRelation_init, is_declared, declare.
  rewrite H. cbn [tables heap].
  destruct (tables w !! d) as [tb|] eqn:Ht.
  - rewrite bool_decide_true by (by eexists). cbn [_jobs].
    rewrite lookup_insert_eq. eexists. split; [reflexivity|].
    split; [by eexists|]. split; done.
  - rewrite bool_decide_false by (intros [? ?]; discriminate). cbn [_jobs tables heap].
    rewrite lookup_insert_eq. eexists. split; [reflexivity|]. split; [|split].
    + rewrite lookup_insert_eq. by eexists.
    + intros d' [x Hx]. rewrite lookup_insert_ne; [done|]. intros ->. congruence.
    + intros [? ?]. discriminate.
Qed.

Lemma requests_cons (self : JobManager) (w : world) (d : string) (rest : list string) :
  JobManager.requests self w (d :: rest) =
  let x := JobManager.__getitem__ self d w in
  let y := JobManager.requests (snd (fst x)) (snd x) rest in
  (fst (fst x) :: fst (fst y), snd (fst y), snd y).
Proof.
  simpl. destruct (JobManager.__getitem__ self d w) as [[r self'] w']. simpl.
  by destruct (JobManager.requests self' w' rest) as [[rs self''] w''].
Qed.

Lemma built_for_cons (d : string) (o : JobRelationObj) (os : list JobRelationObj) :
  built_for d (o :: os) =
  (if bool_decide (database o = Some d) then 1 else 0) + built_for d os.
Proof.
  unfold built_for. rewrite filter_cons.
  destruct (decide (database o = Some d)) as [H|H].
  - by rewrite bool_decide_true.
  - by rewrite bool_decide_false.
Qed.

Lemma requests_spec (ds : list string) :
  forall (self : JobManager) (w : world) rs self' w',
    cache_ok self w ->
    JobManager.requests self w ds = (rs, self', w') ->
    cache_ok self' w' /\
    connection_ self' = connection_ self /\
    (forall d r, _jobs self !! d = Some r -> _jobs self' !! d = Some r) /\
    (forall i d, ds !! i = Some d ->
                 is_Some (_jobs self' !! d) /\ rs !! i = Some (_jobs self' !! d)) /\
    exists new,
      heap w' = heap w ++ new /\
      forall d, built_for d new =
                if bool_decide (is_Some (_jobs self !! d)) then 0
                else if bool_decide (d ∈ ds) then 1 else 0.
Proof.
  induction ds as [|d rest IH]; intros self w rs self' w' Hok Hrun.
  - simpl in Hrun. injection Hrun as <- <- <-.
    split; [done|]. split; [done|]. split; [done|]. split; [done|].
    exists []. split; [by rewrite app_nil_r|].
    intros d. rewrite (bool_decide_false (d ∈ [])) by apply not_elem_of_nil.
    by destruct (bool_decide _).
  - rewrite requests_cons in Hrun. cbv zeta in Hrun.
    destruct (_jobs self !! d) as [r|] eqn:Hd.
    + rewrite (getitem_cached self d w r Hd) in Hrun. cbn [fst snd] in Hrun.
      destruct (JobManager.requests self w rest) as [[rs1 self1] w1] eqn:Hrest.
      cbn [fst snd] in Hrun. injection Hrun as <- <- <-.
      destruct (IH self w rs1 self1 w1 Hok Hrest)
        as (Hok1 & Hc & Hmono & Hall & new & Hheap & Hcount).
      split; [done|]. split; [done|]. split; [done|]. split.
      * intros [|i] d' Hi; simpl in Hi.
        -- assert (d' = d) as -> by congruence.
           rewrite (Hmono d r Hd). split; [by eexists|done].
        -- by apply (Hall i).
      * exists new. split; [done|]. intros d0. rewrite Hcount.
        destruct (bool_decide (is_Some (_jobs self !! d0))) eqn:Hb; [done|].
        apply bool_decide_eq_false in Hb.
        assert (d0 <> d) by (intros ->; apply Hb; by eexists).
        rewrite (bool_decide_ext (d0 ∈ d :: rest) (d0 ∈ rest)); [done|].
        rewrite elem_of_cons. split; [intros [?|?]; [congruence|done]|by right].
    + destruct (getitem_fresh self d w Hd) as (tbls & Hget & _ & _).
      rewrite Hget in Hrun. cbn [fst snd] in Hrun.
      set (self0 := {| connection_ := connection_ self;
                       _jobs := <[d := length (heap w)]> (_jobs self) |}) in *.
      set (w0 := {| tables := tbls; heap := heap w ++ [store_of self d] |}) in *.
      destruct (JobManager.requests self0 w0 rest) as [[rs1 self1] w1] eqn:Hrest.
      cbn [fst snd] in Hrun. injection Hrun as <- <- <-.
      assert (Hok0 : cache_ok self0 w0).
      { intros d' r'. unfold self0, w0. cbn [_jobs heap].
        destruct (decide (d' = d)) as [->|Hne].
        - rewrite lookup_insert_eq. intros [= <-].
          rewrite lookup_app_r by lia. by rewrite Nat.sub_diag.
        - rewrite lookup_insert_ne by done. intros Hr.
          apply Hok in Hr. rewrite lookup_app_l; [done|].
          by apply lookup_lt_Some in Hr. }
      destruct (IH self0 w0 rs1 self1 w1 Hok0 Hrest)
        as (Hok1 & Hc & Hmono & Hall & new & Hheap & Hcount).
      assert (Hd1 : _jobs self1 !! d = Some (length (heap w))).
      { apply Hmono. unfold self0. cbn [_jobs]. apply lookup_insert_eq. }
      split; [done|]. split; [done|]. split; [|split].
      * intros d' r' Hr'. apply Hmono. unfold self0. cbn [_jobs].
        rewrite lookup_insert_ne; [done|]. intros ->. congruence.
      * intros [|i] d' Hi; simpl in Hi.
        -- assert (d' = d) as -> by congruence.
           split; [by eexists|]. simpl. f_equal. by symmetry.
        -- by apply (Hall i).
      * exists (store_of self d :: new). split.
        { rewrite Hheap. unfold w0. cbn [heap]. by rewrite <- app_assoc. }
        intros d0. rewrite built_for_cons, Hcount. unfold self0. cbn [_jobs database store_of].
        destruct (decide (d0 = d)) as [->|Hne].
        -- rewrite lookup_insert_eq, Hd.
           rewrite (bool_decide_true (Some d = Some d)) by done.
           rewrite (bool_decide_true (is_Some (Some _))) by (by eexists).
           rewrite (bool_decide_false (is_Some None)) by (intros [? ?]; discriminate).
           rewrite (bool_decide_true (d ∈ d :: rest)) by (apply elem_of_cons; by left).
           done.
        -- rewrite lookup_insert_ne by done.
           rewrite (bool_decide_false (Some d = Some d0)) by congruence.
           destruct (bool_decide (is_Some (_jobs self !! d0))); [done|].
           rewrite (bool_decide_ext (d0 ∈ d :: rest) (d0 ∈ rest)); [done|].
           rewrite elem_of_cons. split; [intros [?|?]; [congruence|done]|by right].
Qed.

Lemma cache_ok_init (conn : connection) (w : world) :
  cache_ok (JobManager.__init__ conn) w.
Proof. intros d r. unfold JobManager.__init__. cbn [_jobs]. by rewrite lookup_empty. Qed.

(** C10: a manager created by [JobManager(conn)] is asked for any sequence
    of databases.  Every request returns an object, which is the
    [JobRelation] of the requested database on the manager's connection; two
    requests for the same database return the same reference, that is the
    identical object; and over the whole sequence exactly one object is
    constructed for each database requested (none for any other), whatever
    the number of requests.  Objects that existed before are left alone. *)
Theorem getitem_caches_one_store (conn : connection) (w0 : world) (ds : list string)
    (rs : list (option ref)) (self' : JobManager) (w' : world) :
  JobManager.requests (JobManager.__init__ conn) w0 ds = (rs, self', w') ->
  (forall i d, ds !! i = Some d ->
     exists r, rs !! i = Some (Some r) /\
               heap w' !! r = Some {| database := Some d; _connection := conn |}) /\
  (forall i j d, ds !! i = Some d -> ds !! j = Some d -> rs !! i = rs !! j) /\
  (forall d, built_for d (constructed w0 w') = if bool_decide (d ∈ ds) then 1 else 0) /\
  take (length (heap w0)) (heap w') = heap w0.
Proof.
  intros Hrun.
  destruct (requests_spec ds _ w0 rs self' w' (cache_ok_init conn w0) Hrun)
    as (Hok & Hc & _ & Hall & new & Hheap & Hcount).
  split; [|split; [|split]].
  - intros i d Hi. destruct (Hall i d Hi) as [[r Hr] Hrs].
    exists r. rewrite Hrs, Hr. split; [done|].
    rewrite (Hok d r Hr). unfold store_of. by rewrite Hc.
  - intros i j d Hi Hj.
    destruct (Hall i d Hi) as [_ ->]. by destruct (Hall j d Hj) as [_ ->].
  - intros d. unfold constructed. rewrite Hheap, drop_app_length, Hcount.
    unfold JobManager.__init__. cbn [_jobs]. rewrite lookup_empty.
    by rewrite (bool_decide_false (is_Some None)) by (intros [? ?]; discriminate).
  - by rewrite Hheap, take_app_length.
Qed.

Lemma getitem_caches_one_store_witness :
  let w0 := {| tables := ∅; heap := [] |} in
  let ds := ["lab"; "experiment"; "lab"] in
  let res := JobManager.requests (JobManager.__init__ 1) w0 ds in
  let rs := fst (fst res) in
  let w' := snd res in
  (forall i d, ds !! i = Some d ->
     exists r, rs !! i = Some (Some r) /\
               heap w' !! r = Some {| database := Some d; _connection := 1 |}) /\
  (forall i j d, ds !! i = Some d -> ds !! j = Some d -> rs !! i = rs !! j) /\
  (forall d, built_for d (constructed w0 w') = if bool_decide (d ∈ ds) then 1 else 0) /\
  take (length (heap w0)) (heap w') = heap w0.
Proof.
  intros w0 ds res rs w'.
  apply (getitem_caches_one_store 1 w0 ds rs (snd (fst res)) w').
  vm_compute. reflexivity.
Defined.

(** ** More on [key_hash] *)

Lemma hex_digit_in (x : Z) : MD5.hex_digit x ∈ hex_digits.
Proof.
  unfold MD5.hex_digit.
  match goal with |- nth ?n ?l ?d ∈ _ => destruct (nth_in_or_default n l d) as [H|H] end.
  - apply list_elem_of_In in H. exact H.
  - rewrite H. apply elem_of_cons. by left.
Qed.

Lemma hex_length (bs : list Z) : String.length (MD5.hex bs) = 2 * length bs.
Proof. induction bs as [|b bs IH]; simpl; [done|]. rewrite IH. lia. Qed.

Lemma hex_chars (bs : list Z) (c : ascii) :
  c ∈ list_ascii_of_string (MD5.hex bs) -> c ∈ hex_digits.
Proof.
  induction bs as [|b bs IH]; simpl; intros Hc.
  - by apply not_elem_of_nil in Hc.
  - apply elem_of_cons in Hc as [->|Hc]; [apply hex_digit_in|].
    apply elem_of_cons in Hc as [->|Hc]; [apply hex_digit_in|]. by apply IH.
Qed.

Lemma digest_bytes_length (msg : list Z) : length (MD5.digest_bytes msg) = 16.
Proof.
  unfold MD5.digest_bytes.
  by destruct (MD5.blocks _ MD5.init _) as [a b c d].
Qed.

Lemma key_hash_length (key : pydict) : String.length (key_hash key) = 32.
Proof. unfold key_hash, MD5.hexdigest. by rewrite hex_length, digest_bytes_length. Qed.

(** X1: whatever the key, [key_hash] returns 32 characters, each of them one
    of [0123456789abcdef]: the value always fills the [char(32)] column
    [key_hash] of the job table exactly. *)
Theorem key_hash_is_32_hex_digits (key : pydict) :
  String.length (key_hash key) = 32 /\
  (forall c, c ∈ list_ascii_of_string (key_hash key) -> c ∈ hex_digits).
Proof.
  split; [apply key_hash_length|].
  unfold key_hash, MD5.hexdigest. apply hex_chars.
Qed.

Lemma stringify_sorted (k : pydict) :
  is_dict k -> sorted (map stringify k) = map stringify (sorted k).
Proof.
  intros Hd. unfold sorted.
  apply (Sorted_unique_strong item_le).
  - intros a b Ha Hb Hab Hba.
    rewrite merge_sort_Permutation in Ha, Hb.
    apply (dict_item_unique (map stringify k)); auto.
    + unfold is_dict. rewrite map_map. exact Hd.
    + unfold item_le in *. by apply (anti_symm String.le).
  - apply Sorted_merge_sort, _.
  - apply (Sorted_fmap stringify item_le item_le); [done|].
    apply Sorted_merge_sort, _.
  - rewrite merge_sort_Permutation. apply fmap_Permutation.
    by rewrite merge_sort_Permutation.
Qed.

(** X2: the values of a key reach the digest only through [str]: replacing
    every value by the string it prints as gives the same hash, so the keys
    [{id: 1}] and [{id: "1"}] name the same job. *)
Theorem key_hash_ignores_value_types (k : pydict) :
  is_dict k -> key_hash (map stringify k) = key_hash k.
Proof.
  intros Hd. rewrite !key_hash_digest_input. f_equal.
  unfold digest_input, items. rewrite stringify_sorted by done.
  rewrite map_map. reflexivity.
Qed.

Lemma key_hash_ignores_value_types_witness :
  let k := [("id", PyInt 1); ("ok", PyBool true)] in
  map stringify k = [("id", PyStr "1"); ("ok", PyStr "True")] /\
  key_hash [("id", PyStr "1"); ("ok", PyStr "True")] = key_hash k.
Proof.
  intros k. split; [reflexivity|].
  apply (key_hash_ignores_value_types k).
  unfold is_dict. apply (bool_decide_unpack _). vm_compute. reflexivity.
Defined.

(** ** More on [reserve], [complete] and [error] *)

(** X3: [reserve] returns [True] exactly when the medium works and the table
    holds no record for [(table_name, key_hash)]; the table then gains
    exactly one row, with status [reserved], the host name and pid of the
    caller, no key copy, no error stack and an empty error message. *)
Theorem reserve_true_iff_free (t : string) (k : pydict) (e : env) (s : table) :
  (fst (JobRelation.reserve t k e s) = Return true <->
   medium e = None /\ s !! (t, key_hash k) = None) /\
  (fst (JobRelation.reserve t k e s) = Return true ->
   snd (JobRelation.reserve t k e s) =
   <[(t, key_hash k) :=
       {| job_table_name := t; job_key_hash := key_hash k; job_status := st_reserved;
          job_key := None; job_error_message := ""; job_error_stack := None;
          job_host := nodename e; job_pid := pid e; job_timestamp := clock e |}]> s).
Proof.
  rewrite reserve_eq. destruct (medium e) as [f|]; simpl.
  - split; [split; [discriminate|by intros [? _]]|discriminate].
  - destruct (s !! (t, key_hash k)) eqn:Hs; simpl.
    + split; [split; [discriminate|by intros [_ ?]]|discriminate].
    + split; [split; done|done].
Qed.

Lemma reserve_true_iff_free_witness :
  let e := {| nodename := "node1"; pid := 4242; clock := 100; medium := None |} in
  let k := [("id", PyInt 1)] in
  fst (JobRelation.reserve "T" k e ∅) = Return true /\
  snd (JobRelation.reserve "T" k e ∅) =
   <[("T", key_hash k) :=
       {| job_table_name := "T"; job_key_hash := key_hash k; job_status := st_reserved;
          job_key := None; job_error_message := ""; job_error_stack := None;
          job_host := "node1"; job_pid := 4242; job_timestamp := 100 |}]> ∅.
Proof.
  intros e k.
  assert (H : fst (JobRelation.reserve "T" k e ∅) = Return true).
  { apply (proj1 (reserve_true_iff_free "T" k e ∅)). split; [reflexivity|apply lookup_empty]. }
  split; [exact H|].
  exact (proj2 (reserve_true_iff_free "T" k e ∅) H).
Defined.

(** A call leaves the records of all other keys alone. *)
Lemma run_call_frame (c : call) (e : env) (s : table) (pk : string * string) :
  pk <> target c -> snd (run_call c e s) !! pk = s !! pk.
Proof.
  intros Hpk. rewrite run_call_eq. destruct (medium e); [done|].
  destruct c as [t k|t k|t k msg]; simpl in *.
  - destruct (s !! (t, key_hash k)); simpl; [done|]. by rewrite lookup_insert_ne.
  - by rewrite lookup_delete_ne.
  - by rewrite lookup_insert_ne.
Qed.

(** What a call returns, and what it leaves under its key, depend on the
    table only through the record of that key. *)
Lemma run_call_local (c : call) (e : env) (s1 s2 : table) :
  s1 !! target c = s2 !! target c ->
  fst (run_call c e s1) = fst (run_call c e s2) /\
  snd (run_call c e s1) !! target c = snd (run_call c e s2) !! target c.
Proof.
  intros H. rewrite !run_call_eq. destruct (medium e); [done|].
  destruct c as [t k|t k|t k msg]; simpl in *.
  - rewrite <- H. destruct (s1 !! (t, key_hash k)) eqn:Hs; simpl.
    + split; [done|]. by rewrite Hs, <- H.
    + by rewrite !lookup_insert_eq.
  - by rewrite !lookup_delete_eq.
  - by rewrite !lookup_insert_eq.
Qed.

(** X4: a call reads and writes only the record of its own
    [(table_name, key_hash)]: every other record is left as it was, and both
    the result of the call and the record it leaves are the same on any two
    tables that agree on that pair. *)
Theorem call_reads_and_writes_only_its_key (c : call) (e : env) (s : table) :
  (forall pk, pk <> target c -> snd (run_call c e s) !! pk = s !! pk) /\
  (forall s2, s !! target c = s2 !! target c ->
     fst (run_call c e s) = fst (run_call c e s2) /\
     snd (run_call c e s) !! target c = snd (run_call c e s2) !! target c).
Proof.
  split.
  - intros pk. apply run_call_frame.
  - intros s2. apply run_call_local.
Qed.

Lemma call_reads_and_writes_only_its_key_witness :
  let e := {| nodename := "node1"; pid := 4242; clock := 100; medium := None |} in
  let k := [("id", PyInt 1)] in
  let s := <[("U", key_hash k) := reserved_record e "U" k]> (∅ : table) in
  snd (run_call (Complete "T" k) e s) !! ("U", key_hash k) = s !! ("U", key_hash k) /\
  fst (run_call (Reserve "T" k) e s) = fst (run_call (Reserve "T" k) e ∅).
Proof.
  intros e k s. split.
  - apply (proj1 (call_reads_and_writes_only_its_key (Complete "T" k) e s) ("U", key_hash k)).
    simpl. intros H. discriminate H.
  - apply (proj2 (call_reads_and_writes_only_its_key (Reserve "T" k) e s) ∅).
    unfold s. simpl. rewrite lookup_insert_ne by (intros H; discriminate H).
    reflexivity.
Defined.

(** X6: two calls about different [(table_name, key_hash)] pairs commute:
    issued in either order they leave the same table and each caller sees
    the same result. *)
Theorem calls_on_different_keys_commute (c1 c2 : call) (e1 e2 : env) (s : table) :
  target c1 <> target c2 ->
  snd (run [(e1, c1); (e2, c2)] s) = snd (run [(e2, c2); (e1, c1)] s) /\
  fst (run [(e1, c1); (e2, c2)] s) = rev (fst (run [(e2, c2); (e1, c1)] s)).
Proof.
  intros Hne. rewrite !run_cons. cbn [run fst snd rev app].
  assert (H1 : forall s', s' !! target c1 = s !! target c1 ->
                          fst (run_call c1 e1 s') = fst (run_call c1 e1 s) /\
                          snd (run_call c1 e1 s') !! target c1 = snd (run_call c1 e1 s) !! target c1)
    by (intros; by apply run_call_local).
  assert (H2 : forall s', s' !! target c2 = s !! target c2 ->
                          fst (run_call c2 e2 s') = fst (run_call c2 e2 s) /\
                          snd (run_call c2 e2 s') !! target c2 = snd (run_call c2 e2 s) !! target c2)
    by (intros; by apply run_call_local).
  destruct (H1 (snd (run_call c2 e2 s))) as [Ho1 Hs1];
    [by apply run_call_frame|].
  destruct (H2 (snd (run_call c1 e1 s))) as [Ho2 Hs2];
    [by apply run_call_frame|].
  split; [|by rewrite Ho1, Ho2].
  apply map_eq. intros pk.
  destruct (decide (pk = target c1)) as [->|Hp1].
  - rewrite Hs1. by apply run_call_frame.
  - destruct (decide (pk = target c2)) as [->|Hp2].
    + rewrite Hs2. symmetry. by apply run_call_frame.
    + by rewrite !run_call_frame.
Qed.

Lemma calls_on_different_keys_commute_witness :
  let e1 := {| nodename := "node1"; pid := 4242; clock := 100; medium := None |} in
  let e2 := {| nodename := "node2"; pid := 17; clock := 101; medium := None |} in
  let c1 := Reserve "T" [("id", PyInt 1)] in
  let c2 := Error "T" [("id", PyInt 2)] "boom" in
  snd (run [(e1, c1); (e2, c2)] ∅) = snd (run [(e2, c2); (e1, c1)] ∅) /\
  fst (run [(e1, c1); (e2, c2)] ∅) = rev (fst (run [(e2, c2); (e1, c1)] ∅)).
Proof.
  intros e1 e2 c1 c2.
  apply (calls_on_different_keys_commute c1 c2 e1 e2 ∅).
  vm_compute. intros H. discriminate H.
Defined.

Lemma run_agree (p : string * string) (calls : list (env * call)) :
  forall s1 s2 : table,
    s1 !! p = s2 !! p ->
    snd (run calls s1) !! p = snd (run (filter (about p) calls) s2) !! p /\
    filter (fun eo => about p (fst eo)) (zip calls (fst (run calls s1))) =
    zip (filter (about p) calls) (fst (run (filter (about p) calls) s2)).
Proof.
  induction calls as [|[e c] rest IH]; intros s1 s2 H; [done|].
  rewrite run_cons. cbn [fst snd zip zip_with]. rewrite !filter_cons.
  cbn [fst]. destruct (decide (about p (e, c))) as [Hc|Hc]; unfold about in Hc; cbn [snd] in Hc.
  - rewrite run_cons. cbn [fst snd zip zip_with].
    rewrite <- Hc in H. destruct (run_call_local c e s1 s2 H) as [Ho Hs].
    rewrite Hc in Hs. destruct (IH _ _ Hs) as [IH1 IH2].
    split; [done|]. by rewrite Ho, IH2.
  - apply IH. rewrite run_call_frame by congruence. done.
Qed.

(** X7: the history of one pair does not depend on the calls about other
    pairs.  Running a trace, or only its calls about [p], leaves the same
    record for [p], and the calls about [p] see the same results either
    way. *)
Theorem key_history_is_independent (p : string * string) (calls : list (env * call)) (s : table) :
  snd (run calls s) !! p = snd (run (filter (about p) calls) s) !! p /\
  filter (fun eo => about p (fst eo)) (zip calls (fst (run calls s))) =
  zip (filter (about p) calls) (fst (run (filter (about p) calls) s)).
Proof. by apply run_agree. Qed.

(** X8: when any number of processes reserve the same key of the same table
    and the medium works for all of them, the first call returns [True],
    every other one returns [False], and the table records the host and pid
    of the winner. *)
Theorem first_reserve_wins (t : string) (k : pydict) (e : env) (es : list env) (s : table) :
  s !! (t, key_hash k) = None ->
  medium e = None -> Forall (fun e' => medium e' = None) es ->
  run (map (fun e' => (e', Reserve t k)) (e :: es)) s =
  (Return (Some true) :: map (fun _ => Return (Some false)) es,
   <[(t, key_hash k) := reserved_record e t k]> s).
Proof.
  intros Hs He Hes. cbn [map]. rewrite run_cons, run_call_eq, He, Hs. cbn [fst snd].
  assert (Hp : is_Some ((<[(t, key_hash k) := reserved_record e t k]> s) !! (t, key_hash k)))
    by (rewrite lookup_insert_eq; by eexists).
  generalize dependent (<[(t, key_hash k) := reserved_record e t k]> s).
  intros s1 [r Hr]. clear Hs He.
  assert (H : run (map (fun e' => (e', Reserve t k)) es) s1 =
              (map (fun _ => Return (Some false)) es, s1)).
  { induction Hes as [|e' es He' Hes IH]; [done|].
    cbn [map]. rewrite run_cons, run_call_eq, He', Hr. cbn [fst snd]. by rewrite IH. }
  by rewrite H.
Qed.

Lemma first_reserve_wins_witness :
  let e1 := {| nodename := "node1"; pid := 4242; clock := 100; medium := None |} in
  let e2 := {| nodename := "node2"; pid := 17; clock := 101; medium := None |} in
  let e3 := {| nodename := "node2"; pid := 18; clock := 101; medium := None |} in
  let k := [("id", PyInt 1)] in
  run [(e1, Reserve "T" k); (e2, Reserve "T" k); (e3, Reserve "T" k)] ∅ =
  ([Return (Some true); Return (Some false); Return (Some false)],
   <[("T", key_hash k) := reserved_record e1 "T" k]> ∅).
Proof.
  intros e1 e2 e3 k.
  apply (first_reserve_wins "T" k e1 [e2; e3] ∅).
  - apply lookup_empty.
  - reflexivity.
  - repeat constructor.
Defined.

(** X9: a reservation blocks every key that feeds the same bytes to the
    digest: after [reserve] returned [True] for [k1], [reserve] for a key
    [k2] with the same stringified values in sorted order returns [False],
    also when [k2] is a different mapping. *)
Theorem colliding_key_is_blocked (t : string) (k1 k2 : pydict) (e1 e2 : env) (s s1 : table) :
  digest_input k1 = digest_input k2 ->
  JobRelation.reserve t k1 e1 s = (Return true, s1) ->
  medium e2 = None ->
  JobRelation.reserve t k2 e2 s1 = (Return false, s1).
Proof.
  intros Hk Hr He2.
  assert (Hh : key_hash k2 = key_hash k1) by (by rewrite !key_hash_digest_input, Hk).
  rewrite reserve_eq in Hr. rewrite reserve_eq, He2, Hh.
  destruct (medium e1); [discriminate|].
  destruct (s !! (t, key_hash k1)); [discriminate|].
  injection Hr as <-. by rewrite lookup_insert_eq.
Qed.

Lemma colliding_key_is_blocked_witness :
  let e := {| nodename := "node1"; pid := 4242; clock := 100; medium := None |} in
  let k1 := [("a", PyInt 1); ("b", PyInt 23)] in
  let k2 := [("a", PyInt 12); ("b", PyInt 3)] in
  let s1 := <[("T", key_hash k1) := reserved_record e "T" k1]> (∅ : table) in
  JobRelation.reserve "T" k2 e s1 = (Return false, s1).
Proof.
  intros e k1 k2 s1.
  apply (colliding_key_is_blocked "T" k1 k2 e e ∅ s1).
  - reflexivity.
  - rewrite reserve_eq. reflexivity.
  - reflexivity.
Defined.

(** X10: [complete] removes an error record as well: after [error], a
    [complete] of the same key frees it and the next [reserve] returns
    [True]. *)
Theorem complete_clears_error (t : string) (k : pydict) (msg : string)
    (e1 e2 e3 : env) (s : table) :
  medium e1 = None -> medium e2 = None -> medium e3 = None ->
  exists s1 s2 s3,
    JobRelation.error t k msg e1 s = (Return tt, s1) /\
    JobRelation.complete t k e2 s1 = (Return tt, s2) /\
    JobRelation.reserve t k e3 s2 = (Return true, s3) /\
    s3 !! (t, key_hash k) = Some (reserved_record e3 t k).
Proof.
  intros H1 H2 H3. do 3 eexists.
  rewrite error_eq, H1. split; [reflexivity|].
  rewrite complete_eq, H2. split; [reflexivity|].
  rewrite reserve_eq, H3, lookup_delete_eq. split; [reflexivity|].
  apply lookup_insert_eq.
Qed.

Lemma complete_clears_error_witness :
  let e := {| nodename := "node1"; pid := 4242; clock := 100; medium := None |} in
  let k := [("id", PyInt 1)] in
  exists s1 s2 s3,
    JobRelation.error "T" k "boom" e ∅ = (Return tt, s1) /\
    JobRelation.complete "T" k e s1 = (Return tt, s2) /\
    JobRelation.reserve "T" k e s2 = (Return true, s3) /\
    s3 !! ("T", key_hash k) = Some (reserved_record e "T" k).
Proof.
  intros e k.
  exact (complete_clears_error "T" k "boom" e e e ∅ eq_refl eq_refl eq_refl).
Defined.

(** X11: of two [error] calls for the same key the last one wins: the
    table is the one the second call alone would have left. *)
Theorem last_error_wins (t : string) (k : pydict) (m1 m2 : string) (e1 e2 : env) (s : table) :
  medium e2 = None ->
  JobRelation.error t k m2 e2 (snd (JobRelation.error t k m1 e1 s)) =
  JobRelation.error t k m2 e2 s.
Proof.
  intros H2. rewrite !error_eq, H2.
  destruct (medium e1); simpl; [done|]. by rewrite insert_insert_eq.
Qed.

Lemma last_error_wins_witness :
  let e1 := {| nodename := "node1"; pid := 4242; clock := 100; medium := None |} in
  let e2 := {| nodename := "node2"; pid := 17; clock := 101; medium := None |} in
  let k := [("id", PyInt 1)] in
  JobRelation.error "T" k "late" e2 (snd (JobRelation.error "T" k "early" e1 ∅)) =
  JobRelation.error "T" k "late" e2 ∅.
Proof.
  intros e1 e2 k.
  exact (last_error_wins "T" k "early" "late" e1 e2 ∅ eq_refl).
Defined.

Lemma run_call_table_ok (c : call) (e : env) (s : table) :
  table_ok s -> table_ok (snd (run_call c e s)).
Proof.
  intros Hs. rewrite run_call_eq. destruct (medium e); [done|].
  destruct c as [t k|t k|t k msg]; simpl.
  - destruct (s !! (t, key_hash k)) eqn:Hl; simpl; [done|].
    intros pk r. destruct (decide (pk = (t, key_hash k))) as [->|Hne].
    + rewrite lookup_insert_eq. intros [= <-]. unfold row_ok, reserved_record. simpl.
      rewrite key_hash_length. repeat split; done.
    + rewrite lookup_insert_ne by done. apply Hs.
  - intros pk r. destruct (decide (pk = (t, key_hash k))) as [->|Hne].
    + by rewrite lookup_delete_eq.
    + rewrite lookup_delete_ne by done. apply Hs.
  - intros pk r. destruct (decide (pk = (t, key_hash k))) as [->|Hne].
    + rewrite lookup_insert_eq. intros [= <-]. unfold row_ok, error_record. simpl.
      rewrite key_hash_length. repeat split; done.
    + rewrite lookup_insert_ne by done. apply Hs.
Qed.

(** X12: whatever calls are issued, every row of the table stays filed under
    its own [(table_name, key_hash)], with a hash of 32 characters, a status
    that is [reserved] or [error] (never [ignore]), no key copy and no error
    stack, and no message on a reservation. *)
Theorem run_preserves_table_ok (calls : list (env * call)) (s : table) :
  table_ok s -> table_ok (snd (run calls s)).
Proof.
  revert s. induction calls as [|[e c] rest IH]; intros s Hs; [done|].
  rewrite run_cons. cbn [snd]. by apply IH, run_call_table_ok.
Qed.

Lemma run_preserves_table_ok_witness :
  let e1 := {| nodename := "node1"; pid := 4242; clock := 100; medium := None |} in
  let e2 := {| nodename := "node2"; pid := 17; clock := 101; medium := Some Connectivity |} in
  let k := [("id", PyInt 1)] in
  table_ok (snd (run [(e1, Reserve "T" k); (e2, Complete "T" k); (e1, Error "T" k "boom")] ∅)).
Proof.
  intros e1 e2 k.
  apply (run_preserves_table_ok _ ∅).
  intros pk r H. rewrite lookup_empty in H. discriminate H.
Defined.

(** A record only appears through a [reserve] that returns [True] or an
    [error] that returns, on its own key. *)
Lemma run_call_creates (p : string * string) (c : call) (e : env) (s : table) :
  s !! p = None ->
  snd (run_call c e s) !! p = None \/
  (is_complete c = false /\ target c = p /\
   (fst (run_call c e s) = Return (Some true) \/ fst (run_call c e s) = Return None)).
Proof.
  intros Hp. rewrite run_call_eq.
  destruct (medium e); [by left|].
  destruct c as [t k|t k|t k msg]; simpl.
  - destruct (decide ((t, key_hash k) = p)) as [->|Hne].
    + rewrite Hp. right. auto.
    + left. destruct (s !! (t, key_hash k)); simpl; [done|]. by rewrite lookup_insert_ne.
  - left. destruct (decide ((t, key_hash k) = p)) as [->|Hne].
    + apply lookup_delete_eq.
    + by rewrite lookup_delete_ne.
  - destruct (decide ((t, key_hash k) = p)) as [->|Hne]; [right; auto|].
    left. by rewrite lookup_insert_ne.
Qed.

(** X13: records come and go only through calls about their own pair.  A
    record that is gone after a trace was removed by a [complete] of its pair
    that returned; a record that appeared was written by a [reserve] of its
    pair that returned [True] or by an [error] of its pair that returned.
    Nothing expires and nothing is retried. *)
Theorem records_change_only_by_their_calls (p : string * string)
    (calls : list (env * call)) (s : table) :
  (is_Some (s !! p) -> snd (run calls s) !! p = None ->
   exists m em tm km,
     calls !! m = Some (em, Complete tm km) /\ (tm, key_hash km) = p /\
     fst (run calls s) !! m = Some (Return None)) /\
  (s !! p = None -> is_Some (snd (run calls s) !! p) ->
   exists m em cm,
     calls !! m = Some (em, cm) /\ is_complete cm = false /\ target cm = p /\
     (fst (run calls s) !! m = Some (Return (Some true)) \/
      fst (run calls s) !! m = Some (Return None))).
Proof.
  revert s. induction calls as [|[e c] rest IH]; intros s.
  - simpl. split.
    + intros [r Hr] Hn. congruence.
    + intros Hn [r Hr]. congruence.
  - rewrite run_cons. cbn [fst snd].
    destruct (IH (snd (run_call c e s))) as [IHfree IHmake]. split.
    + intros Hp Hn.
      destruct (run_call_keeps p c e s Hp) as [Hp'|(Hc & Htc & Ho)].
      * destruct (IHfree Hp' Hn) as (m & em & tm & km & Hm & Htm & Hom).
        by exists (S m), em, tm, km.
      * destruct c as [|t k|]; try discriminate.
        exists 0, e, t, k. split; [reflexivity|]. split; [exact Htc|].
        change (Some (fst (run_call (Complete t k) e s)) = Some (Return None)).
        by rewrite Ho.
    + intros Hp Hn.
      destruct (run_call_creates p c e s Hp) as [Hp'|(Hc & Htc & Ho)].
      * destruct (IHmake Hp' Hn) as (m & em & cm & Hm & Hcm & Htm & Hom).
        by exists (S m), em, cm.
      * exists 0, e, c. split; [reflexivity|]. split; [exact Hc|]. split; [exact Htc|].
        change (Some (fst (run_call c e s)) = Some (Return (Some true)) \/
                Some (fst (run_call c e s)) = Some (Return None)).
        destruct Ho as [-> | ->]; auto.
Qed.

Lemma records_change_only_by_their_calls_witness :
  let e := {| nodename := "node1"; pid := 4242; clock := 100; medium := None |} in
  let k := [("id", PyInt 1)] in
  let calls := [(e, Reserve "T" k); (e, Reserve "U" k)] in
  let s := <[("T", key_hash k) := reserved_record e "T" k]> (∅ : table) in
  (exists m em tm km,
     [(e, Complete "T" k)] !! m = Some (em, Complete tm km) /\
     (tm, key_hash km) = ("T", key_hash k) /\
     fst (run [(e, Complete "T" k)] s) !! m = Some (Return None)) /\
  (exists m em cm,
     calls !! m = Some (em, cm) /\ is_complete cm = false /\ target cm = ("T", key_hash k) /\
     (fst (run calls ∅) !! m = Some (Return (Some true)) \/
      fst (run calls ∅) !! m = Some (Return None))).
Proof.
  intros e k calls s. split.
  - apply (proj1 (records_change_only_by_their_calls ("T", key_hash k) [(e, Complete "T" k)] s)).
    + unfold s. rewrite lookup_insert_eq. by eexists.
    + vm_compute. reflexivity.
  - apply (proj2 (records_change_only_by_their_calls ("T", key_hash k) calls ∅)).
    + apply lookup_empty.
    + vm_compute. by eexists.
Defined.

(** ** More on [JobManager] and the constructor of [JobRelation] *)

(** X14: [__getitem__] never disturbs a jobs table that is there: every
    declared table keeps all its rows, a first request for a database leaves
    its table declared, and a repeated request touches neither the server nor
    the heap. *)
Theorem getitem_declares_and_keeps_tables (self : JobManager) (d : string) (w : world) :
  (forall d' tb, tables w !! d' = Some tb ->
                 tables (snd (JobManager.__getitem__ self d w)) !! d' = Some tb) /\
  (_jobs self !! d = None ->
   is_declared (Some d) (snd (JobManager.__getitem__ self d w)) = true) /\
  (is_Some (_jobs self !! d) -> snd (JobManager.__getitem__ self d w) = w).
Proof.
  destruct (_jobs self !! d) as [r|] eqn:Hd.
  - rewrite (getitem_cached self d w r Hd). cbn [snd].
    split; [done|]. split; [discriminate|done].
  - destruct (getitem_fresh self d w Hd) as (tbls & -> & Hdecl & Hkeep & _). cbn [snd tables].
    split; [|split].
    + intros d' tb Hd'. rewrite Hkeep; [done|]. by eexists.
    + intros _. unfold is_declared. cbn [tables]. by apply bool_decide_eq_true.
    + intros [? ?]. discriminate.
Qed.

Lemma getitem_declares_and_keeps_tables_witness :
  let e := {| nodename := "node1"; pid := 4242; clock := 100; medium := None |} in
  let k := [("id", PyInt 1)] in
  let jobs := <[("T", key_hash k) := reserved_record e "T" k]> (∅ : table) in
  let w := {| tables := <["lab" := jobs]> ∅; heap := [] |} in
  tables (snd (JobManager.__getitem__ (JobManager.__init__ 1) "lab" w)) !! "lab" = Some jobs /\
  is_declared (Some "experiment")
    (snd (JobManager.__getitem__ (JobManager.__init__ 1) "experiment" w)) = true.
Proof.
  intros e k jobs w. split.
  - apply (proj1 (getitem_declares_and_keeps_tables (JobManager.__init__ 1) "lab" w)).
    apply lookup_insert_eq.
  - apply (proj1 (proj2 (getitem_declares_and_keeps_tables (JobManager.__init__ 1) "experiment" w))).
    apply lookup_empty.
Defined.

(** X15: requests for different databases are answered with different
    objects. *)
Theorem distinct_databases_distinct_objects (conn : connection) (w0 : world)
    (ds : list string) (rs : list (option ref)) (self' : JobManager) (w' : world) :
  JobManager.requests (JobManager.__init__ conn) w0 ds = (rs, self', w') ->
  forall i j d1 d2,
    ds !! i = Some d1 -> ds !! j = Some d2 -> d1 <> d2 -> rs !! i <> rs !! j.
Proof.
  intros Hrun i j d1 d2 Hi Hj Hne Heq.
  destruct (requests_spec ds _ w0 rs self' w' (cache_ok_init conn w0) Hrun)
    as (Hok & _ & _ & Hall & _).
  destruct (Hall i d1 Hi) as [[r1 Hr1] Hrs1].
  destruct (Hall j d2 Hj) as [[r2 Hr2] Hrs2].
  rewrite Hrs1, Hrs2, Hr1, Hr2 in Heq.
  assert (r1 = r2) as -> by congruence.
  apply Hok in Hr1, Hr2. rewrite Hr1 in Hr2. unfold store_of in Hr2. congruence.
Qed.

Lemma distinct_databases_distinct_objects_witness :
  let w0 := {| tables := ∅; heap := [] |} in
  let ds := ["lab"; "experiment"; "lab"] in
  let res := JobManager.requests (JobManager.__init__ 1) w0 ds in
  fst (fst res) !! 0 <> fst (fst res) !! 1.
Proof.
  intros w0 ds res.
  apply (distinct_databases_distinct_objects 1 w0 ds (fst (fst res)) (snd (fst res)) (snd res)
           ltac:(vm_compute; reflexivity) 0 1 "lab" "experiment").
  - reflexivity.
  - reflexivity.
  - intros H. discriminate H.
Defined.

(** X16: the copy constructor [JobRelation(other)] makes a new object,
    distinct from [other], with the same database and connection; it ignores
    its [database] argument, leaves [other] as it is and declares nothing. *)
Theorem copy_constructor_copies (other : ref) (db : option string) (w : world)
    (o : JobRelationObj) :
  heap w !! other = Some o ->
  exists r w',
    JobRelation_init (inl other) db w = (Some r, w') /\
    r <> other /\
    heap w' !! r = Some o /\ heap w' !! other = Some o /\
    tables w' = tables w.
Proof.
  intros Ho. unfold JobRelation_init. rewrite Ho. do 2 eexists.
  split; [reflexivity|]. cbn [heap tables].
  pose proof (lookup_lt_Some _ _ _ Ho) as Hlt.
  split; [lia|]. split; [|split; [|done]].
  - rewrite lookup_app_r by lia. rewrite Nat.sub_diag. by destruct o.
  - by rewrite lookup_app_l.
Qed.

Lemma copy_constructor_copies_witness :
  let o := {| database := Some "lab"; _connection := 1 |} in
  let w := {| tables := ∅; heap := [o] |} in
  exists r w',
    JobRelation_init (inl 0) (Some "experiment") w = (Some r, w') /\
    r <> 0 /\
    heap w' !! r = Some o /\ heap w' !! 0 = Some o /\
    tables w' = tables w.
Proof.
  intros o w.
  exact (copy_constructor_copies 0 (Some "experiment") w o eq_refl).
Defined.

(** X17: the cache belongs to the manager.  Two managers that are asked for
    the same database for the first time construct two distinct objects, each
    on its own manager's connection; the second construction finds the table
    declared and leaves the server as it is. *)
Theorem managers_do_not_share_objects (A B : JobManager) (d : string) (w : world) :
  _jobs A !! d = None -> _jobs B !! d = None ->
  exists r1 r2 A' B' w1 w2,
    JobManager.__getitem__ A d w = (Some r1, A', w1) /\
    JobManager.__getitem__ B d w1 = (Some r2, B', w2) /\
    r1 <> r2 /\
    heap w2 !! r1 = Some (store_of A d) /\ heap w2 !! r2 = Some (store_of B d) /\
    tables w2 = tables w1.
Proof.
  intros HA HB.
  destruct (getitem_fresh A d w HA) as (tbls1 & H1 & Hdecl & _).
  destruct (getitem_fresh B d {| tables := tbls1; heap := heap w ++ [store_of A d] |} HB)
    as (tbls2 & H2 & _ & _ & Hsame).
  cbn [tables heap] in H2, Hsame.
  do 6 eexists. split; [exact H1|]. split; [exact H2|].
  cbn [heap tables]. rewrite length_app. cbn [length].
  split; [lia|]. split; [|split].
  - rewrite lookup_app_l by (rewrite length_app; simpl; lia).
    rewrite lookup_app_r by lia. by rewrite Nat.sub_diag.
  - rewrite lookup_app_r by (rewrite length_app; simpl; lia).
    rewrite length_app. cbn [length].
    by replace (length (heap w) + 1 - (length (heap w) + 1)) with 0 by lia.
  - by apply Hsame.
Qed.

Lemma managers_do_not_share_objects_witness :
  let A := JobManager.__init__ 1 in
  let B := JobManager.__init__ 1 in
  let w := {| tables := ∅; heap := [] |} in
  exists r1 r2 A' B' w1 w2,
    JobManager.__getitem__ A "lab" w = (Some r1, A', w1) /\
    JobManager.__getitem__ B "lab" w1 = (Some r2, B', w2) /\
    r1 <> r2 /\
    heap w2 !! r1 = Some (store_of A "lab") /\ heap w2 !! r2 = Some (store_of B "lab") /\
    tables w2 = tables w1.
Proof.
  intros A B w.
  exact (managers_do_not_share_objects A B "lab" w (lookup_empty _) (lookup_empty _)).
Defined.

(** X18: in whatever state the manager is, [__getitem__] returns an object
    (the final lookup never misses), and asking again for the same database
    returns the same reference and changes neither the manager nor the
    world. *)
Theorem getitem_twice (self : JobManager) (d : string) (w : world) :
  is_Some (fst (fst (JobManager.__getitem__ self d w))) /\
  JobManager.__getitem__ (snd (fst (JobManager.__getitem__ self d w))) d
    (snd (JobManager.__getitem__ self d w)) =
  JobManager.__getitem__ self d w.
Proof.
  destruct (_jobs self !! d) as [r|] eqn:Hd.
  - rewrite (getitem_cached self d w r Hd). cbn [fst snd].
    split; [by eexists|]. by apply getitem_cached.
  - destruct (getitem_fresh self d w Hd) as (tbls & -> & _ & _). cbn [fst snd].
    split; [by eexists|]. apply getitem_cached. cbn [_jobs]. apply lookup_insert_eq.
Qed.
